(** * Travel-partner server: trip roster, conversations and presence

    A shallow embedding of the request handlers of the server
    (routes/posts.js, routes/chat.js and the socket handlers of the
    entry file) together with the Mongoose schema of a trip
    (models/Post.js), and the properties of the roster state machine,
    the conversation store and the presence registry.

    Conventions of the embedding.
    - A MongoDB collection that is only ever appended to (posts, chats)
      is a list of documents in insertion order; the [_id] of a document
      is its position, [findById] is list lookup and [save] of a loaded
      document is an in-place update at that position.
    - User ids are the strings [toString()] yields for an ObjectId, so
      the comparisons [a.toString() === b.toString()] and
      [array.includes(id)] of the handlers are equality, respectively
      membership, on strings.
    - [new Date()] is an input of the handler, one argument per
      occurrence in the source; dates are milliseconds as [Z].
    - A handler is a function from the database to the new database and
      the HTTP response; [populate] only decorates the response with
      profile attributes and is left out.
    - Texts (titles, descriptions, comments, messages) are strings of
      characters that are one UTF-16 code unit each.  On these the count
      of the route validators ([isLength]) and the count of the schema's
      [maxlength], the [length] of the JavaScript string, are the same
      number.  A text with characters outside the Basic Multilingual
      Plane, which the route validator counts once and the schema
      twice, lies outside the embedding: there the handlers that save a
      validated text can fail at [save] and answer 500. *)

From Stdlib Require Import ZArith Lia Ascii.
From stdpp Require Import base option list strings gmap sorting.

Local Open Scope string_scope.
Local Open Scope list_scope.
Local Open Scope nat_scope.

(** ** Shared types *)

Abbreviation UserId := string.
Abbreviation Date := Z.

(** [String.prototype.trim]-like sanitizer of express-validator
    ([body(f).trim()]): strips white space from both ends. *)
Definition is_space (c : ascii) : bool :=
  let n := nat_of_ascii c in
  (((9 <=? n) && (n <=? 13)) || (n =? 32) || (n =? 160))%nat.

Fixpoint ltrim (s : string) : string :=
  match s with
  | EmptyString => EmptyString
  | String c s' => if is_space c then ltrim s' else s
  end.

Fixpoint rtrim (s : string) : string :=
  match s with
  | EmptyString => EmptyString
  | String c s' =>
      match rtrim s' with
      | EmptyString => if is_space c then EmptyString else String c EmptyString
      | r => String c r
      end
  end.

Definition trim (s : string) : string := rtrim (ltrim s).

(** [isLength({ min, max })] and [isLength({ min })], on texts whose
    characters are one UTF-16 code unit each: the validator's count,
    which takes a surrogate pair for one character, is then the length
    of the string. *)
Definition isLength (lo : nat) (hi : option nat) (s : string) : bool :=
  (lo <=? String.length s)%nat &&
  match hi with Some h => (String.length s <=? h)%nat | None => true end.

(** ** models/Post.js *)

Inductive Status : Type := active | full | completed | cancelled.

#[global] Instance Status_eq_dec : EqDecision Status.
Proof. solve_decision. Defined.

Module Comment.
Record t : Type := mk
  { user : UserId;
    text : string;
    createdAt : Date }.
End Comment.

Module Post.
Record t : Type := mk
  { title : string;
    description : string;
    fromCity : string;
    toCity : string;
    travelDate : Date;
    travelTime : string;
    maxParticipants : Z;
    currentParticipants : Z;
    creator : UserId;
    participants : list UserId;
    comments : list Comment.t;
    status : Status;
    transportMode : string;
    estimatedCost : Z;
    notes : string }.

Definition set_participants (ps : list UserId) (p : t) : t :=
  mk (title p) (description p) (fromCity p) (toCity p) (travelDate p)
     (travelTime p) (maxParticipants p) (currentParticipants p) (creator p)
     ps (comments p) (status p) (transportMode p) (estimatedCost p) (notes p).

Definition set_currentParticipants (n : Z) (p : t) : t :=
  mk (title p) (description p) (fromCity p) (toCity p) (travelDate p)
     (travelTime p) (maxParticipants p) n (creator p)
     (participants p) (comments p) (status p) (transportMode p)
     (estimatedCost p) (notes p).

Definition set_status (s : Status) (p : t) : t :=
  mk (title p) (description p) (fromCity p) (toCity p) (travelDate p)
     (travelTime p) (maxParticipants p) (currentParticipants p) (creator p)
     (participants p) (comments p) s (transportMode p) (estimatedCost p)
     (notes p).

Definition set_comments (cs : list Comment.t) (p : t) : t :=
  mk (title p) (description p) (fromCity p) (toCity p) (travelDate p)
     (travelTime p) (maxParticipants p) (currentParticipants p) (creator p)
     (participants p) cs (status p) (transportMode p) (estimatedCost p)
     (notes p).

(** [transportMode.enum] *)
Definition transportModes : list string :=
  ["car"; "bus"; "train"; "flight"; "other"].

(** Validators of [commentSchema]: [text] is required, at most 500
    characters ([user] and [createdAt] are always set by the handler). *)
Definition validateComment (c : Comment.t) : bool :=
  negb (String.eqb (Comment.text c) EmptyString) &&
  (String.length (Comment.text c) <=? 500)%nat.

(** Validators of [postSchema] that [save] runs on a new document
    (the [status] enum holds by typing).  The schema trims [title],
    [fromCity] and [toCity]; the create handler has already trimmed
    them. *)
Definition validate (p : t) : bool :=
  negb (String.eqb (title p) EmptyString) &&
  (String.length (title p) <=? 100)%nat &&
  negb (String.eqb (description p) EmptyString) &&
  (String.length (description p) <=? 1000)%nat &&
  negb (String.eqb (fromCity p) EmptyString) &&
  negb (String.eqb (toCity p) EmptyString) &&
  negb (String.eqb (travelTime p) EmptyString) &&
  (2 <=? maxParticipants p)%Z && (maxParticipants p <=? 10)%Z &&
  bool_decide (transportMode p ∈ transportModes) &&
  (0 <=? estimatedCost p)%Z &&
  (String.length (notes p) <=? 500)%nat &&
  forallb validateComment (comments p).
End Post.

(** ** The user documents, as far as the trip handlers touch them *)

Module User.
Record t : Type := mk
  { tripsCreated : list nat;
    tripsJoined : list nat }.

Definition push_tripsCreated (id : nat) (u : t) : t :=
  mk (tripsCreated u ++ [id]) (tripsJoined u).
Definition push_tripsJoined (id : nat) (u : t) : t :=
  mk (tripsCreated u) (tripsJoined u ++ [id]).
Definition pull_tripsJoined (id : nat) (u : t) : t :=
  mk (tripsCreated u) (filter (λ j, j ≠ id) (tripsJoined u)).
End User.

(** ** models/Chat.js *)

(** The Chat schema (models/Chat.js) is not among the sources; the
    handlers of routes/chat.js fix the fields they read and write, and
    the data model of the specification supplies the rest. *)

Module Message.
(** Modelled from the spec: the message sub-document of models/Chat.js,
    which is missing: [{sender, content, timestamp, read}]. *)
Record t : Type := mk
  { sender : UserId;
    content : string;
    timestamp : Date;
    read : bool }.

(** Modelled from the spec: the schema default of [read], which the
    missing models/Chat.js declares; a message is appended with
    [read = false]. *)
Definition default_read : bool := false.

Definition set_read (b : bool) (m : t) : t :=
  mk (sender m) (content m) (timestamp m) b.
End Message.

Module Chat.
(** Modelled from the spec: the document of models/Chat.js, which is
    missing: the two participants, an optional related trip, the
    append-only message sequence and the activity date [lastMessage]
    that the handlers write and sort on.  The value of [lastMessage]
    on a conversation without messages is the schema's default, an
    input of the creating handler. *)
Record t : Type := mk
  { participants : list UserId;
    relatedPost : option nat;
    messages : list Message.t;
    lastMessage : Date }.

Definition set_messages (ms : list Message.t) (c : t) : t :=
  mk (participants c) (relatedPost c) ms (lastMessage c).
Definition set_lastMessage (d : Date) (c : t) : t :=
  mk (participants c) (relatedPost c) (messages c) d.
End Chat.

(** ** The database and the responses *)

Record Db : Type := mkDb
  { users : gmap string User.t;
    posts : list Post.t;
    chats : list Chat.t }.

Definition set_users (us : gmap string User.t) (db : Db) : Db :=
  mkDb us (posts db) (chats db).
Definition set_posts (ps : list Post.t) (db : Db) : Db :=
  mkDb (users db) ps (chats db).
Definition set_chats (cs : list Chat.t) (db : Db) : Db :=
  mkDb (users db) (posts db) cs.

(** [Model.findById(id)] *)
Definition findById {A : Type} (coll : list A) (id : nat) : option A :=
  coll !! id.

(** [doc.save()] of a document loaded under [id] *)
Definition save {A : Type} (coll : list A) (id : nat) (doc : A) : list A :=
  <[id := doc]> coll.

(** [new Model(doc).save()]: the new [_id] and the grown collection *)
Definition create {A : Type} (coll : list A) (doc : A) : nat * list A :=
  (length coll, coll ++ [doc]).

(** [User.findByIdAndUpdate(id, update)]; no document, no change *)
Definition findByIdAndUpdate (f : User.t → User.t) (id : UserId)
    (us : gmap string User.t) : gmap string User.t :=
  alter f id us.

(** One entry of the conversation list *)
Module Conversation.
Record t : Type := mk
  { _id : nat;
    participant : option UserId;
    relatedPost : option nat;
    lastMessage : option Message.t;
    unreadCount : nat }.
End Conversation.

(** The JSON bodies the handlers send *)
Inductive Body : Type :=
| Message_ (message : string)
| Errors
| MessagePost (message : string) (post : option Post.t)
| MessageComments (message : string) (comments : list Comment.t)
| ChatDoc (_id : nat) (chat : Chat.t)
| MessageSent (message : string) (sentMessage : option Message.t)
| Conversations (conversations : list Conversation.t).

Record Response : Type := mkResponse
  { code : nat;
    body : Body }.

(** [res.status(code).json({ message })] *)
Definition reply (code : nat) (message : string) : Response :=
  mkResponse code (Message_ message).

(** ** routes/posts.js *)

Module DateText.
(** The [travelDate] text of a request body, by the three readings the
    create handler makes of it: the verdict of the validator
    [isISO8601()], the JavaScript date [new Date(travelDate)] ([None]
    is the Invalid Date), and the cast of the text to the [Date] path
    of the schema when the document is built ([None] is a cast error,
    which [save] reports).  The three need not agree: a text may pass
    the validator and yet be an Invalid Date, and the cast may read it
    as another date than JavaScript does. *)
Record t : Type := mk
  { isISO8601 : bool;
    parsed : option Date;
    cast : option Date }.
End DateText.

Module PostBody.
(** [req.body] of [POST /api/posts]; the last three fields are
    optional. *)
Record t : Type := mk
  { title : string;
    description : string;
    fromCity : string;
    toCity : string;
    travelDate : DateText.t;
    travelTime : string;
    maxParticipants : Z;
    transportMode : option string;
    estimatedCost : option Z;
    notes : option string }.
End PostBody.

(** [x || d] on an optional string: absent and empty are falsy *)
Definition or_string (x : option string) (d : string) : string :=
  match x with
  | Some s => if String.eqb s EmptyString then d else s
  | None => d
  end.

(** The validation chain of [POST /api/posts] *)
Definition createErrors (b : PostBody.t) : bool :=
  negb (isLength 5 (Some 100) (trim (PostBody.title b)) &&
        isLength 10 (Some 1000) (trim (PostBody.description b)) &&
        isLength 2 None (trim (PostBody.fromCity b)) &&
        isLength 2 None (trim (PostBody.toCity b)) &&
        DateText.isISO8601 (PostBody.travelDate b) &&
        negb (String.eqb (PostBody.travelTime b) EmptyString) &&
        (2 <=? PostBody.maxParticipants b)%Z &&
        (PostBody.maxParticipants b <=? 10)%Z).

(** [new Date(travelDate) <= new Date()]; a comparison with the
    Invalid Date is false. *)
Definition notFuture (now : Date) (travelDate : DateText.t) : bool :=
  match DateText.parsed travelDate with
  | Some d => (d <=? now)%Z
  | None => false
  end.

(** [POST /api/posts]; [now] is the [new Date()] the travel date is
    compared with.  A travel date that cannot be cast makes [save]
    throw, as a failed validator does. *)
Definition createPost (now : Date) (db : Db) (uid : UserId)
    (b : PostBody.t) : Db * Response :=
  if createErrors b then (db, mkResponse 400 Errors)
  else
    if notFuture now (PostBody.travelDate b)
    then (db, reply 400 "Travel date must be in the future")
    else
      match DateText.cast (PostBody.travelDate b) with
      | None => (db, reply 500 "Server error")
      | Some travelDate =>
          let post :=
            Post.mk (trim (PostBody.title b)) (trim (PostBody.description b))
              (trim (PostBody.fromCity b)) (trim (PostBody.toCity b))
              travelDate (PostBody.travelTime b) (PostBody.maxParticipants b)
              1 uid [uid] [] active
              (or_string (PostBody.transportMode b) "car")
              (default 0%Z (PostBody.estimatedCost b))
              (or_string (PostBody.notes b) EmptyString) in
          if negb (Post.validate post) then (db, reply 500 "Server error")
          else
            let '(id, posts') := create (posts db) post in
            let db1 := set_posts posts' db in
            let db2 :=
              set_users (findByIdAndUpdate (User.push_tripsCreated id) uid
                           (users db1)) db1 in
            let populatedPost := findById (posts db2) id in
            (db2, mkResponse 201
                    (MessagePost "Post created successfully" populatedPost))
    end.

(** [POST /api/posts/:id/join] *)
Definition join (db : Db) (uid : UserId) (id : nat) : Db * Response :=
  match findById (posts db) id with
  | None => (db, reply 404 "Post not found")
  | Some post =>
      if negb (bool_decide (Post.status post = active))
      then (db, reply 400 "This trip is no longer active")
      else if String.eqb (Post.creator post) uid
      then (db, reply 400 "You cannot join your own trip")
      else if bool_decide (uid ∈ Post.participants post)
      then (db, reply 400 "You have already joined this trip")
      else if (Post.maxParticipants post <=? Post.currentParticipants post)%Z
      then (db, reply 400 "This trip is already full")
      else
        let post1 :=
          Post.set_participants (Post.participants post ++ [uid]) post in
        let post2 :=
          Post.set_currentParticipants
            (Post.currentParticipants post1 + 1)%Z post1 in
        let post3 :=
          if (Post.maxParticipants post2 <=? Post.currentParticipants post2)%Z
          then Post.set_status full post2 else post2 in
        let db1 := set_posts (save (posts db) id post3) db in
        let db2 :=
          set_users (findByIdAndUpdate (User.push_tripsJoined id) uid
                       (users db1)) db1 in
        let updatedPost := findById (posts db2) id in
        (db2, mkResponse 200
                (MessagePost "Successfully joined the trip" updatedPost))
  end.

(** [POST /api/posts/:id/leave] *)
Definition leave (db : Db) (uid : UserId) (id : nat) : Db * Response :=
  match findById (posts db) id with
  | None => (db, reply 404 "Post not found")
  | Some post =>
      if String.eqb (Post.creator post) uid
      then (db, reply 400 "Trip creator cannot leave the trip")
      else if negb (bool_decide (uid ∈ Post.participants post))
      then (db, reply 400 "You are not part of this trip")
      else
        let post1 :=
          Post.set_participants
            (filter (λ participant, participant ≠ uid)
               (Post.participants post)) post in
        let post2 :=
          Post.set_currentParticipants
            (Post.currentParticipants post1 - 1)%Z post1 in
        let post3 :=
          if bool_decide (Post.status post2 = full)
          then Post.set_status active post2 else post2 in
        let db1 := set_posts (save (posts db) id post3) db in
        let db2 :=
          set_users (findByIdAndUpdate (User.pull_tripsJoined id) uid
                       (users db1)) db1 in
        (db2, reply 200 "Successfully left the trip")
  end.

(** [POST /api/posts/:id/comments]; [now] is the [Date.now] default of
    the comment's [createdAt]. *)
Definition addComment (now : Date) (db : Db) (uid : UserId) (id : nat)
    (text : string) : Db * Response :=
  let text := trim text in
  if negb (isLength 1 (Some 500) text) then (db, mkResponse 400 Errors)
  else
    match findById (posts db) id with
    | None => (db, reply 404 "Post not found")
    | Some post =>
        let newComment := Comment.mk uid text now in
        if negb (Post.validateComment newComment)
        then (db, reply 500 "Server error")
        else
          let post1 :=
            Post.set_comments (Post.comments post ++ [newComment]) post in
          let db1 := set_posts (save (posts db) id post1) db in
          match findById (posts db1) id with
          | None => (db1, reply 500 "Server error")
          | Some updatedPost =>
              (db1, mkResponse 200
                      (MessageComments "Comment added successfully"
                         (Post.comments updatedPost)))
          end
    end.

(** ** routes/chat.js *)

(** [{ participants: uid }]: the array holds [uid] *)
Definition hasParticipant (uid : UserId) (c : Chat.t) : Prop :=
  uid ∈ Chat.participants c.

(** [{ participants: { $all: ids } }]: the array holds every element of
    [ids] *)
Definition hasAll (ids : list UserId) (c : Chat.t) : Prop :=
  Forall (λ x, x ∈ Chat.participants c) ids.

#[global] Instance hasParticipant_dec uid c : Decision (hasParticipant uid c).
Proof. unfold hasParticipant. apply _. Defined.

#[global] Instance hasAll_dec ids c : Decision (hasAll ids c).
Proof. unfold hasAll. apply _. Defined.

(** [Model.find(query)]: the matching documents with their [_id], in
    insertion order *)
Definition find_docs {A : Type} (P : A → Prop) `{∀ x, Decision (P x)}
    (coll : list A) : list (nat * A) :=
  filter (λ d, P d.2) (imap (λ i x, (i, x)) coll).

(** [Model.findOne(query)]: the first matching document *)
Definition findOne {A : Type} (P : A → Prop) `{∀ x, Decision (P x)}
    (coll : list A) : option (nat * A) :=
  list_find P coll.

(** [.sort({ lastMessage: -1 })] *)
Definition moreRecent (x y : nat * Chat.t) : Prop :=
  (Chat.lastMessage y.2 ≤ Chat.lastMessage x.2)%Z.

#[global] Instance moreRecent_dec x y : Decision (moreRecent x y).
Proof. unfold moreRecent. apply _. Defined.

Definition sortByLastMessageDesc (l : list (nat * Chat.t))
    : list (nat * Chat.t) :=
  merge_sort moreRecent l.

(** [msg.sender.toString() !== uid && !msg.read] *)
Definition unreadFor (uid : UserId) (msg : Message.t) : bool :=
  negb (String.eqb (Message.sender msg) uid) && negb (Message.read msg).

(** The formatting callback of [GET /api/chat/conversations] *)
Definition formatConversation (uid : UserId) (d : nat * Chat.t)
    : Conversation.t :=
  let chat := d.2 in
  let otherParticipant :=
    List.find (λ participant, negb (String.eqb participant uid))
      (Chat.participants chat) in
  let lastMessage := last (Chat.messages chat) in
  Conversation.mk d.1 otherParticipant (Chat.relatedPost chat) lastMessage
    (length (List.filter (unreadFor uid) (Chat.messages chat))).

(** [GET /api/chat/conversations] *)
Definition listConversations (db : Db) (uid : UserId) : Db * Response :=
  let found :=
    sortByLastMessageDesc (find_docs (hasParticipant uid) (chats db)) in
  (db, mkResponse 200 (Conversations (formatConversation uid <$> found))).

(** [GET /api/chat/:userId]; [t0] is the schema's default for
    [lastMessage] when a conversation is created. *)
Definition getOrCreateChat (t0 : Date) (db : Db) (uid userId : UserId)
    (postId : option nat) : Db * Response :=
  match users db !! userId with
  | None => (db, reply 404 "User not found")
  | Some otherUser =>
      match findOne (hasAll [uid; userId]) (chats db) with
      | Some (id, chat) => (db, mkResponse 200 (ChatDoc id chat))
      | None =>
          let chat := Chat.mk [uid; userId] postId [] t0 in
          let '(id, chats') := create (chats db) chat in
          let db1 := set_chats chats' db in
          match findById (chats db1) id with
          | None => (db1, reply 500 "Server error")
          | Some chat => (db1, mkResponse 200 (ChatDoc id chat))
          end
      end
  end.

(** [POST /api/chat/:chatId/messages]; [t1] is the [new Date()] of the
    message's [timestamp], [t2] the [new Date()] assigned to
    [chat.lastMessage]. *)
Definition sendMessage (t1 t2 : Date) (db : Db) (uid : UserId)
    (chatId : nat) (content : string) : Db * Response :=
  let content := trim content in
  if negb (isLength 1 (Some 1000) content) then (db, mkResponse 400 Errors)
  else
    match findById (chats db) chatId with
    | None => (db, reply 404 "Chat not found")
    | Some chat =>
        if negb (bool_decide (uid ∈ Chat.participants chat))
        then (db, reply 403 "You are not a participant in this chat")
        else
          let newMessage :=
            Message.mk uid content t1 Message.default_read in
          let chat1 :=
            Chat.set_messages (Chat.messages chat ++ [newMessage]) chat in
          let chat2 := Chat.set_lastMessage t2 chat1 in
          let db1 := set_chats (save (chats db) chatId chat2) db in
          match findById (chats db1) chatId with
          | None => (db1, reply 500 "Server error")
          | Some updatedChat =>
              let sentMessage := last (Chat.messages updatedChat) in
              (db1, mkResponse 200
                      (MessageSent "Message sent successfully" sentMessage))
          end
    end.

(** The [forEach] callback of [PUT /api/chat/:chatId/read] *)
Definition markMessage (uid : UserId) (message : Message.t) : Message.t :=
  if negb (String.eqb (Message.sender message) uid)
  then Message.set_read true message else message.

(** [PUT /api/chat/:chatId/read] *)
Definition markRead (db : Db) (uid : UserId) (chatId : nat)
    : Db * Response :=
  match findById (chats db) chatId with
  | None => (db, reply 404 "Chat not found")
  | Some chat =>
      if negb (bool_decide (uid ∈ Chat.participants chat))
      then (db, reply 403 "You are not a participant in this chat")
      else
        let chat1 :=
          Chat.set_messages (markMessage uid <$> Chat.messages chat) chat in
        let db1 := set_chats (save (chats db) chatId chat1) db in
        (db1, reply 200 "Messages marked as read")
  end.

(** ** The HTTP interface as one transition function *)

Inductive Request : Type :=
| CreateTrip (now : Date) (uid : UserId) (b : PostBody.t)
| Join (uid : UserId) (id : nat)
| Leave (uid : UserId) (id : nat)
| AddComment (now : Date) (uid : UserId) (id : nat) (text : string)
| ListConversations (uid : UserId)
| FindOrCreate (t0 : Date) (uid userId : UserId) (postId : option nat)
| AppendMessage (t1 t2 : Date) (uid : UserId) (chatId : nat)
    (content : string)
| MarkRead (uid : UserId) (chatId : nat).

Definition handle (db : Db) (r : Request) : Db * Response :=
  match r with
  | CreateTrip now uid b => createPost now db uid b
  | Join uid id => join db uid id
  | Leave uid id => leave db uid id
  | AddComment now uid id text => addComment now db uid id text
  | ListConversations uid => listConversations db uid
  | FindOrCreate t0 uid userId postId => getOrCreateChat t0 db uid userId postId
  | AppendMessage t1 t2 uid chatId content =>
      sendMessage t1 t2 db uid chatId content
  | MarkRead uid chatId => markRead db uid chatId
  end.

(** The database after serving the requests in order *)
Definition run (db : Db) (rs : list Request) : Db :=
  fold_left (λ d r, (handle d r).1) rs db.

(** A server started on a user directory, with no trip and no
    conversation yet *)
Definition initial (us : gmap string User.t) : Db := mkDb us [] [].

(** ** The socket handlers of the entry file *)

Module Socket.
Record t : Type := mk
  { id : string;
    userId : option string }.
End Socket.

(** Truthiness of an optional string: [undefined] and [''] are falsy *)
Definition truthy (x : option string) : bool :=
  match x with
  | Some s => negb (String.eqb s EmptyString)
  | None => false
  end.

(** [socket.on('join', userId => ...)]: the registry and the socket
    after the event *)
Definition on_join (activeUsers : gmap string string) (socket : Socket.t)
    (userId : string) : gmap string string * Socket.t :=
  (<[userId := Socket.id socket]> activeUsers,
   Socket.mk (Socket.id socket) (Some userId)).

Module Notification.
Record t : Type := mk
  { senderId : string;
    message : string;
    timestamp : Date }.
End Notification.

(** [socket.on('sendMessage', data => ...)]: the socket id the
    [receiveMessage] event is emitted to, with its payload, if any *)
Definition on_sendMessage (now : Date) (activeUsers : gmap string string)
    (receiverId message senderId : string)
    : option (string * Notification.t) :=
  let receiverSocketId := activeUsers !! receiverId in
  if truthy receiverSocketId
  then (λ sid, (sid, Notification.mk senderId message now))
         <$> receiverSocketId
  else None.

(** [socket.on('disconnect', ...)] *)
Definition on_disconnect (activeUsers : gmap string string)
    (socket : Socket.t) : gmap string string :=
  match Socket.userId socket with
  | Some userId =>
      if truthy (Some userId) then delete userId activeUsers
      else activeUsers
  | None => activeUsers
  end.

(** ** Predicates of the properties *)

(** The roster invariant of a trip; uniqueness of the participants is
    what makes the counter follow the list when a member leaves. *)
Definition roster_ok (p : Post.t) : Prop :=
  NoDup (Post.participants p) ∧
  Z.of_nat (length (Post.participants p)) = Post.currentParticipants p ∧
  (Post.currentParticipants p ≤ Post.maxParticipants p)%Z ∧
  Post.creator p ∈ Post.participants p.

(** An active trip has room left: capacity is mirrored by the status. *)
Definition room_ok (p : Post.t) : Prop :=
  Post.status p = active →
  (Post.currentParticipants p < Post.maxParticipants p)%Z.

(** A status that only an external signal sets *)
Definition terminal (s : Status) : Prop := s = completed ∨ s = cancelled.

(** The participant lists of a chat collection hold two ids each, and
    no two of them are the same unordered pair. *)
Definition pairs_ok (pl : list (list UserId)) : Prop :=
  Forall (λ ps, ∃ a b, ps = [a; b]) pl ∧
  ∀ i j pi pj, pl !! i = Some pi → pl !! j = Some pj → pi ≡ₚ pj → i = j.

(** ** Further handlers and predicates *)

(** [GET /api/posts/:id]: the status code with the trip, or with the
    message of the error *)
Definition getPost (db : Db) (id : nat) : nat * (Post.t + string) :=
  match findById (posts db) id with
  | None => (404, inr "Post not found")
  | Some post => (200, inl post)
  end.

(** A text made of white space only *)
Fixpoint blank (s : string) : bool :=
  match s with
  | EmptyString => true
  | String c s' => is_space c && blank s'
  end.

(** The unread count the conversation list shows to [uid] *)
Definition unread (uid : UserId) (chat : Chat.t) : nat :=
  length (List.filter (unreadFor uid) (Chat.messages chat)).

(** The trip lists of the user documents mirror the rosters: a user's
    [tripsCreated] are the trips the user created, [tripsJoined] the
    trips of others the user participates in, each listed once. *)
Definition lists_mirror (db : Db) : Prop :=
  ∀ u U, users db !! u = Some U →
    NoDup (User.tripsCreated U) ∧ NoDup (User.tripsJoined U) ∧
    (∀ id, id ∈ User.tripsCreated U ↔
           ∃ post, posts db !! id = Some post ∧ Post.creator post = u) ∧
    (∀ id, id ∈ User.tripsJoined U ↔
           ∃ post, posts db !! id = Some post ∧
                   u ∈ Post.participants post ∧ Post.creator post ≠ u).

(** The status follows the capacity: active with room left, or full
    with the counter at [maxParticipants]. *)
Definition capacity_ok (p : Post.t) : Prop :=
  (Post.status p = active ∧
   (Post.currentParticipants p < Post.maxParticipants p)%Z) ∨
  (Post.status p = full ∧
   Post.currentParticipants p = Post.maxParticipants p).

(** [p'] is a later version of the trip [p]: what the creator entered
    is unchanged and the comments of [p] are the first comments of
    [p']. *)
Definition trip_extends (p p' : Post.t) : Prop :=
  Post.title p' = Post.title p ∧
  Post.description p' = Post.description p ∧
  Post.fromCity p' = Post.fromCity p ∧
  Post.toCity p' = Post.toCity p ∧
  Post.travelDate p' = Post.travelDate p ∧
  Post.travelTime p' = Post.travelTime p ∧
  Post.maxParticipants p' = Post.maxParticipants p ∧
  Post.creator p' = Post.creator p ∧
  Post.transportMode p' = Post.transportMode p ∧
  Post.estimatedCost p' = Post.estimatedCost p ∧
  Post.notes p' = Post.notes p ∧
  Post.comments p `prefix_of` Post.comments p'.

(** [m'] is a later version of the message [m]: the same message, and
    read if [m] was. *)
Definition message_extends (m m' : Message.t) : Prop :=
  Message.sender m' = Message.sender m ∧
  Message.content m' = Message.content m ∧
  Message.timestamp m' = Message.timestamp m ∧
  (Message.read m = true → Message.read m' = true).

(** [c'] is a later version of the conversation [c]: the same
    participants and related trip, and the messages of [c], in later
    versions, followed by the messages appended since. *)
Definition chat_extends (c c' : Chat.t) : Prop :=
  Chat.participants c' = Chat.participants c ∧
  Chat.relatedPost c' = Chat.relatedPost c ∧
  ∃ old later,
    Chat.messages c' = old ++ later ∧
    Forall2 message_extends (Chat.messages c) old.

(** Every message of the conversation was sent by a participant and has
    between 1 and 1000 characters. *)
Definition chat_ok (c : Chat.t) : Prop :=
  Forall (λ m, Message.sender m ∈ Chat.participants c ∧
               1 ≤ String.length (Message.content m) ≤ 1000)
    (Chat.messages c).

(** [p'] has the entries of [p] that the roster handlers leave alone *)
Definition same_entry (p p' : Post.t) : Prop :=
  Post.title p' = Post.title p ∧
  Post.description p' = Post.description p ∧
  Post.fromCity p' = Post.fromCity p ∧
  Post.toCity p' = Post.toCity p ∧
  Post.travelDate p' = Post.travelDate p ∧
  Post.travelTime p' = Post.travelTime p ∧
  Post.maxParticipants p' = Post.maxParticipants p ∧
  Post.creator p' = Post.creator p ∧
  Post.transportMode p' = Post.transportMode p ∧
  Post.estimatedCost p' = Post.estimatedCost p ∧
  Post.notes p' = Post.notes p.

(** What one request does to the trips and the user documents *)
Inductive trip_step (db db' : Db) : Prop :=
| step_none :
    posts db' = posts db → users db' = users db → trip_step db db'
| step_create uid post :
    Post.creator post = uid → Post.participants post = [uid] →
    Post.currentParticipants post = 1%Z → Post.status post = active →
    Post.comments post = [] → Post.validate post = true →
    posts db' = posts db ++ [post] →
    users db'
      = alter (User.push_tripsCreated (length (posts db))) uid (users db) →
    trip_step db db'
| step_join uid id post post' :
    posts db !! id = Some post →
    Post.status post = active → Post.creator post ≠ uid →
    uid ∉ Post.participants post →
    (Post.currentParticipants post < Post.maxParticipants post)%Z →
    same_entry post post' → Post.comments post' = Post.comments post →
    Post.participants post' = Post.participants post ++ [uid] →
    Post.currentParticipants post' = (Post.currentParticipants post + 1)%Z →
    Post.status post'
      = (if (Post.maxParticipants post <=? Post.currentParticipants post + 1)%Z
         then full else active) →
    posts db' = <[id := post']> (posts db) →
    users db' = alter (User.push_tripsJoined id) uid (users db) →
    trip_step db db'
| step_leave uid id post post' :
    posts db !! id = Some post →
    Post.creator post ≠ uid → uid ∈ Post.participants post →
    same_entry post post' → Post.comments post' = Post.comments post →
    Post.participants post'
      = filter (λ participant, participant ≠ uid) (Post.participants post) →
    Post.currentParticipants post' = (Post.currentParticipants post - 1)%Z →
    Post.status post'
      = (if bool_decide (Post.status post = full)
         then active else Post.status post) →
    posts db' = <[id := post']> (posts db) →
    users db' = alter (User.pull_tripsJoined id) uid (users db) →
    trip_step db db'
| step_comment id post post' c :
    posts db !! id = Some post →
    Post.validateComment c = true →
    same_entry post post' →
    Post.comments post' = Post.comments post ++ [c] →
    Post.participants post' = Post.participants post →
    Post.currentParticipants post' = Post.currentParticipants post →
    Post.status post' = Post.status post →
    posts db' = <[id := post']> (posts db) →
    users db' = users db →
    trip_step db db'.

(** What one request does to the conversations *)
Inductive chat_step (db db' : Db) : Prop :=
| cstep_none : chats db' = chats db → chat_step db db'
| cstep_create t0 uid userId postId :
    findOne (hasAll [uid; userId]) (chats db) = None →
    chats db' = chats db ++ [Chat.mk [uid; userId] postId [] t0] →
    chat_step db db'
| cstep_send t1 t2 uid content id chat :
    chats db !! id = Some chat →
    uid ∈ Chat.participants chat →
    1 ≤ String.length (trim content) ≤ 1000 →
    chats db'
      = <[id := Chat.mk (Chat.participants chat) (Chat.relatedPost chat)
                  (Chat.messages chat ++
                     [Message.mk uid (trim content) t1 false]) t2]>
          (chats db) →
    chat_step db db'
| cstep_mark uid id chat :
    chats db !! id = Some chat →
    uid ∈ Chat.participants chat →
    chats db'
      = <[id := Chat.mk (Chat.participants chat) (Chat.relatedPost chat)
                  (markMessage uid <$> Chat.messages chat)
                  (Chat.lastMessage chat)]> (chats db) →
    chat_step db db'.

(** ** seed.js *)

(** The setters that [new Post(data)] applies: the schema trims
    [title], [fromCity] and [toCity]. *)
Definition castPost (p : Post.t) : Post.t :=
  Post.mk (trim (Post.title p)) (Post.description p)
    (trim (Post.fromCity p)) (trim (Post.toCity p)) (Post.travelDate p)
    (Post.travelTime p) (Post.maxParticipants p) (Post.currentParticipants p)
    (Post.creator p) (Post.participants p) (Post.comments p) (Post.status p)
    (Post.transportMode p) (Post.estimatedCost p) (Post.notes p).

Module Seed.
(** [n * 24 * 60 * 60 * 1000]: [n] days in milliseconds *)
Definition days (n : Z) : Z := (n * 24 * 60 * 60 * 1000)%Z.

(** The [posts] array.  [now k] is the value of the [k]-th [Date.now()]
    and [u0], ..., [u4] are the ids of [createdUsers]; a field the array
    leaves out ([currentParticipants], [comments], [status]) has the
    default of the schema. *)
Definition postsData (now : nat → Date) (u0 u1 u2 u3 u4 : UserId)
    : list Post.t :=
  [
   Post.mk
     "Weekend Trip to Goa - Beach Paradise"
     "Planning a relaxing weekend trip to Goa. Looking for travel companions to share the experience, split costs, and have fun together. We'll visit beautiful beaches, try local cuisine, and enjoy water sports."
     "Mumbai" "Goa" (now 0%nat + days 7)%Z "08:00"
     4 1 u0 [u0] [] active "bus" 3000
     "Accommodation will be in a beach resort. Bring sunscreen and comfortable clothes!";
   Post.mk
     "Himalayan Trek - Manali to Kasol"
     "Adventure trek through the beautiful Himalayas. This will be a 5-day trek with stunning mountain views, camping under stars, and experiencing local culture. Perfect for adventure enthusiasts!"
     "Delhi" "Manali" (now 1%nat + days 14)%Z "06:00"
     6 2 u1 [u1; u2] [] active "bus" 8000
     "Good physical fitness required. Trekking gear will be provided.";
   Post.mk
     "Cultural Tour of Rajasthan"
     "Explore the rich culture and heritage of Rajasthan. Visit magnificent palaces, forts, and experience the vibrant local culture. This will be a week-long journey through Jaipur, Udaipur, and Jodhpur."
     "Bangalore" "Jaipur" (now 2%nat + days 21)%Z "10:00"
     5 1 u2 [u2] [] active "flight" 15000
     "Heritage hotels booked. Camera enthusiasts welcome!";
   Post.mk
     "Kerala Backwaters Experience"
     "Peaceful journey through Kerala's famous backwaters. Enjoy houseboat stays, traditional Kerala cuisine, and serene natural beauty. Perfect for those seeking relaxation and tranquility."
     "Chennai" "Alleppey" (now 3%nat + days 10)%Z "07:30"
     3 2 u3 [u3; u4] [] active "train" 5000
     "Houseboat accommodation included. Vegetarian meals available.";
   Post.mk
     "Mumbai Food Trail"
     "Explore Mumbai's incredible street food scene! We'll visit famous food streets, try local delicacies, and discover hidden gems. Perfect for food lovers and those new to Mumbai."
     "Pune" "Mumbai" (now 4%nat + days 5)%Z "11:00"
     4 2 u4 [u4; u0] [] active "train" 1500
     "Day trip only. Come hungry! We'll try everything from vada pav to kulfi."
  ].

(** The body of the loop over [posts]: save the trip, push it to the
    creator's [tripsCreated] and to the [tripsJoined] of every other
    participant.  [None] when the save fails validation; the script
    then exits with status 1. *)
Definition seedPost (db : Db) (postData : Post.t) : option Db :=
  let post := castPost postData in
  if negb (Post.validate post) then None
  else
    let '(id, posts') := create (posts db) post in
    let db1 := set_posts posts' db in
    let db2 :=
      set_users (findByIdAndUpdate (User.push_tripsCreated id)
                   (Post.creator postData) (users db1)) db1 in
    Some (fold_left
            (λ d participantId,
               if bool_decide (participantId ≠ Post.creator postData)
               then set_users
                      (findByIdAndUpdate (User.push_tripsJoined id)
                         participantId (users d)) d
               else d)
            (Post.participants postData) db2).

(** [seedData]: the users and the trips are deleted, the five demo
    users are saved under their new ids, with empty trip lists, and the
    trips are seeded in order.  The conversations are not touched.
    (The other attributes of the demo users belong to the user schema,
    which is not modelled; their saves are taken to succeed.) *)
Definition seedData (now : nat → Date) (u0 u1 u2 u3 u4 : UserId) (db : Db)
    : option Db :=
  let createdUsers :=
    <[u4 := User.mk [] []]> (<[u3 := User.mk [] []]> (<[u2 := User.mk [] []]>
      (<[u1 := User.mk [] []]> (<[u0 := User.mk [] []]> ∅)))) in
  fold_left (λ acc postData, acc ≫= λ d, seedPost d postData)
    (postsData now u0 u1 u2 u3 u4) (Some (mkDb createdUsers [] (chats db))).
End Seed.

(** The invariants of the trips and the user documents together *)
Definition trips_consistent (db : Db) : Prop :=
  Forall roster_ok (posts db) ∧ Forall capacity_ok (posts db) ∧
  Forall (λ p, Post.validate p = true) (posts db) ∧ lists_mirror db.

(** The trip lists of the document [U] of user [u] mirror the rosters
    of the trips [ps] *)
Definition user_mirror (ps : list Post.t) (u : UserId) (U : User.t) : Prop :=
  NoDup (User.tripsCreated U) ∧ NoDup (User.tripsJoined U) ∧
  (∀ id, id ∈ User.tripsCreated U ↔
         ∃ post, ps !! id = Some post ∧ Post.creator post = u) ∧
  (∀ id, id ∈ User.tripsJoined U ↔
         ∃ post, ps !! id = Some post ∧
                 u ∈ Post.participants post ∧ Post.creator post ≠ u).

(** ** Sample data *)

Definition goaTrip : PostBody.t :=
  PostBody.mk "Weekend in Goa" "Two days on the beach" "Pune" "Goa"
    (DateText.mk true (Some 100%Z) (Some 100%Z)) "08:00" 4 None None None.

(** The same request with a travel date whose three readings differ:
    valid for the validator, no JavaScript date, cast to 20300101
    milliseconds *)
Definition basicDateTrip : PostBody.t :=
  PostBody.mk "Weekend in Goa" "Two days on the beach" "Pune" "Goa"
    (DateText.mk true None (Some 20300101%Z)) "08:00" 4 None None None.

(** A trip of [u1] with the given capacity, counter, roster and status *)
Definition demoTrip (max count : Z) (ps : list UserId) (st : Status)
    : Post.t :=
  Post.mk "Weekend in Goa" "Two days on the beach" "Pune" "Goa" 100 "08:00"
    max count "u1" ps [] st "car" 0 EmptyString.

Definition demoDb (p : Post.t) : Db := mkDb ∅ [p] [].

(** The scenario of the specification: [u1] creates a trip for four,
    [u2], [u3] and [u4] join, [u2] leaves. *)
Definition scenario : list Request :=
  [CreateTrip 5 "u1" goaTrip; Join "u2" 0; Join "u3" 0; Join "u4" 0;
   Leave "u2" 0].

(** A conversation of [u1] and [u2], and a database holding it *)
Definition demoChat (ms : list Message.t) (last : Date) : Chat.t :=
  Chat.mk ["u1"; "u2"] None ms last.

Definition chatDb (c : Chat.t) : Db := mkDb ∅ [] [c].

Definition demoUsers : gmap string User.t :=
  <["u1" := User.mk [] []]> (<["u2" := User.mk [] []]> ∅).

(** * Properties *)

(** ** The sanitizer and the scenario of the specification, evaluated *)

Example trim_both_ends : trim "  see you  " = "see you".
Proof. reflexivity. Qed.

Example trim_blank :
  trim "   " = EmptyString ∧ isLength 1 (Some 500) (trim "   ") = false.
Proof. split; reflexivity. Qed.

(** [u1] creates a trip for four; it stays active while [u2] and [u3]
    join, is full when [u4] has joined, and active again when [u2] has
    left. *)
Example scenario_statuses :
  (λ k, Post.status <$> posts (run (initial ∅) (take k scenario)) !! 0)
    <$> [1; 2; 3; 4; 5]
  = [Some active; Some active; Some active; Some full; Some active].
Proof. vm_compute. reflexivity. Qed.

(** ** Trip roster *)

Section Roster.
Implicit Types (db : Db) (uid : UserId) (id : nat) (post : Post.t).

Lemma filter_absent (uid : UserId) (ps : list UserId) :
  uid ∉ ps → filter (λ participant, participant ≠ uid) ps = ps.
Proof.
  induction ps as [|x ps IH]; intros Hnin; [done|].
  apply not_elem_of_cons in Hnin as [Hne Hnin].
  rewrite filter_cons_True by congruence. by rewrite IH.
Qed.

Lemma length_filter_remove (uid : UserId) (ps : list UserId) :
  NoDup ps → uid ∈ ps →
  S (length (filter (λ participant, participant ≠ uid) ps)) = length ps.
Proof.
  induction 1 as [|x ps Hx Hnd IH]; intros Hin.
  - by apply elem_of_nil in Hin.
  - destruct (decide (x = uid)) as [->|Hne].
    + rewrite filter_cons_False by tauto.
      by rewrite filter_absent.
    + rewrite filter_cons_True by done. simpl. f_equal. apply IH.
      apply elem_of_cons in Hin as [?|?]; [congruence|done].
Qed.

Lemma createPost_roster now db uid b :
  Forall roster_ok (posts db) →
  Forall roster_ok (posts (createPost now db uid b).1).
Proof.
  intros Hall. unfold createPost.
  destruct (createErrors b) eqn:Herr; [done|].
  destruct (notFuture now (PostBody.travelDate b)); [done|].
  destruct (DateText.cast (PostBody.travelDate b)) as [d|]; [|done].
  case_match; [done|]. simpl.
  apply Forall_app; split; [done|].
  apply Forall_singleton. unfold createErrors in Herr.
  apply negb_false_iff in Herr.
  repeat (apply andb_prop in Herr as [Herr ?]).
  repeat split; simpl.
  - apply NoDup_singleton.
  - lia.
  - set_solver.
Qed.

Lemma join_roster db uid id :
  Forall roster_ok (posts db) → Forall roster_ok (posts (join db uid id).1).
Proof.
  intros Hall. unfold join, findById.
  destruct (posts db !! id) as [post|] eqn:Hpost; [|done].
  pose proof (Forall_lookup_1 _ _ _ _ Hall Hpost) as (Hnd & Hlen & Hmax & Hcr).
  repeat (case_match; [done|]).
  repeat case_bool_decide; try done.
  simpl. unfold save. apply Forall_insert; [done|].
  assert (roster_ok
            (Post.set_currentParticipants (Post.currentParticipants post + 1)
               (Post.set_participants (Post.participants post ++ [uid]) post)))
    as Hok.
  { repeat split; simpl.
    - apply NoDup_app; repeat split; [done| |apply NoDup_singleton].
      intros x Hx ->%list_elem_of_singleton. done.
    - rewrite length_app. simpl. lia.
    - lia.
    - set_solver. }
  case_match; [|done].
  destruct Hok as (? & ? & ? & ?). by repeat split.
Qed.

Lemma leave_roster db uid id :
  Forall roster_ok (posts db) → Forall roster_ok (posts (leave db uid id).1).
Proof.
  intros Hall. unfold leave, findById.
  destruct (posts db !! id) as [post|] eqn:Hpost; [|done].
  pose proof (Forall_lookup_1 _ _ _ _ Hall Hpost) as (Hnd & Hlen & Hmax & Hcr).
  destruct (String.eqb (Post.creator post) uid) eqn:Hc; [done|].
  apply String.eqb_neq in Hc.
  case_bool_decide as Hin; [|done].
  simpl. unfold save. apply Forall_insert; [done|].
  pose proof (length_filter_remove uid _ Hnd Hin) as Hrem.
  assert (roster_ok
            (Post.set_currentParticipants (Post.currentParticipants post - 1)
               (Post.set_participants
                  (filter (λ participant, participant ≠ uid)
                     (Post.participants post)) post)))
    as Hok.
  { repeat split; simpl.
    - by apply NoDup_filter.
    - lia.
    - lia.
    - apply list_elem_of_filter. done. }
  case_bool_decide; [|done].
  destruct Hok as (? & ? & ? & ?). by repeat split.
Qed.

Lemma addComment_roster now db uid id text :
  Forall roster_ok (posts db) →
  Forall roster_ok (posts (addComment now db uid id text).1).
Proof.
  intros Hall. unfold addComment, findById.
  case_match; [done|].
  destruct (posts db !! id) as [post|] eqn:Hpost; [|done].
  pose proof (Forall_lookup_1 _ _ _ _ Hall Hpost) as Hok.
  case_match; [done|].
  assert (Forall roster_ok
            (posts (set_posts
                      (save (posts db) id
                         (Post.set_comments
                            (Post.comments post ++
                               [Comment.mk uid (trim text) now]) post)) db)))
    as Hall'.
  { simpl. unfold save. apply Forall_insert; [done|]. exact Hok. }
  by case_match.
Qed.

(** The chat routes never write to the trips. *)
Lemma chat_routes_posts db r :
  match r with
  | CreateTrip _ _ _ | Join _ _ | Leave _ _ | AddComment _ _ _ _ => True
  | _ => posts (handle db r).1 = posts db
  end.
Proof.
  destruct r; simpl; try done.
  - unfold getOrCreateChat. repeat case_match; simplify_eq/=; done.
  - unfold sendMessage. repeat case_match; simplify_eq/=; done.
  - unfold markRead. repeat case_match; simplify_eq/=; done.
Qed.

Lemma handle_roster db r :
  Forall roster_ok (posts db) → Forall roster_ok (posts (handle db r).1).
Proof.
  intros Hall. pose proof (chat_routes_posts db r) as Hchat.
  destruct r; simpl in *; rewrite ?Hchat;
    auto using createPost_roster, join_roster, leave_roster,
      addComment_roster.
Qed.

Lemma run_roster db rs :
  Forall roster_ok (posts db) → Forall roster_ok (posts (run db rs)).
Proof.
  revert db. induction rs as [|r rs IH]; intros db Hall; [done|].
  simpl. apply IH. by apply handle_roster.
Qed.

(** C1. In every state the server reaches from an empty trip
    collection by serving requests (creating trips, joining, leaving,
    commenting, and the chat requests as well), every stored trip has
    as many participants as its [currentParticipants] counter says,
    never more than [maxParticipants], and its creator is among
    them. *)
Theorem roster_invariant (us : gmap string User.t) (rs : list Request)
    id post :
  posts (run (initial us) rs) !! id = Some post →
  Z.of_nat (length (Post.participants post)) = Post.currentParticipants post
  ∧ (Z.of_nat (length (Post.participants post)) ≤ Post.maxParticipants post)%Z
  ∧ Post.creator post ∈ Post.participants post.
Proof.
  intros Hpost.
  assert (Forall roster_ok (posts (run (initial us) rs))) as Hall.
  { apply run_roster. simpl. constructor. }
  destruct (Forall_lookup_1 _ _ _ _ Hall Hpost) as (_ & Hlen & Hmax & Hcr).
  repeat split; [done|lia|done].
Qed.

Lemma roster_invariant_witness :
  posts (run (initial ∅) scenario) !! 0
    = Some (demoTrip 4 3 ["u1"; "u3"; "u4"] active)
  ∧ Z.of_nat (length ["u1"; "u3"; "u4"]) = 3%Z
  ∧ (Z.of_nat (length ["u1"; "u3"; "u4"]) ≤ 4)%Z
  ∧ "u1" ∈ ["u1"; "u3"; "u4"].
Proof.
  split; [vm_compute; reflexivity|].
  apply (roster_invariant ∅ scenario 0
           (demoTrip 4 3 ["u1"; "u3"; "u4"] active)).
  vm_compute; reflexivity.
Defined.

(** C2. Join on an absent trip answers 404 (NotFound).  On a stored
    trip whose status is active it answers, in this order of
    precedence: 400 "You cannot join your own trip" (SelfJoin) to the
    creator; 400 "You have already joined this trip" (AlreadyMember)
    to a participant; 400 "This trip is already full" (Full) when the
    participant counter has reached [maxParticipants]; and otherwise
    it appends the user to the participants, increments the counter
    and sets the status to full exactly when the new count reaches
    [maxParticipants] (the status stays active when it does not). *)
Theorem join_spec db uid id :
  (posts db !! id = None →
   join db uid id = (db, reply 404 "Post not found")) ∧
  (∀ post, posts db !! id = Some post → Post.status post = active →
     (uid = Post.creator post →
      join db uid id = (db, reply 400 "You cannot join your own trip")) ∧
     (uid ≠ Post.creator post → uid ∈ Post.participants post →
      join db uid id
        = (db, reply 400 "You have already joined this trip")) ∧
     (uid ≠ Post.creator post → uid ∉ Post.participants post →
      (Post.maxParticipants post ≤ Post.currentParticipants post)%Z →
      join db uid id = (db, reply 400 "This trip is already full")) ∧
     (uid ≠ Post.creator post → uid ∉ Post.participants post →
      (Post.currentParticipants post < Post.maxParticipants post)%Z →
      ∃ post',
        (join db uid id).2
          = mkResponse 200
              (MessagePost "Successfully joined the trip" (Some post')) ∧
        posts (join db uid id).1 !! id = Some post' ∧
        (∀ j, j ≠ id → posts (join db uid id).1 !! j = posts db !! j) ∧
        Post.participants post' = Post.participants post ++ [uid] ∧
        Post.currentParticipants post'
          = (Post.currentParticipants post + 1)%Z ∧
        Post.maxParticipants post' = Post.maxParticipants post ∧
        Post.creator post' = Post.creator post ∧
        (Post.status post' = full ↔
         (Post.maxParticipants post ≤ Post.currentParticipants post + 1)%Z)
        ∧ (Post.status post' = full ∨ Post.status post' = active))).
Proof.
  unfold join, findById. split.
  - by intros ->.
  - intros post Hpost Hst. rewrite Hpost, Hst. simpl.
    pose proof (lookup_lt_Some _ _ _ Hpost) as Hlt.
    repeat split.
    + intros ->. by rewrite String.eqb_refl.
    + intros Hne%not_eq_sym%String.eqb_neq Hin. rewrite Hne.
      by rewrite bool_decide_eq_true_2.
    + intros Hne%not_eq_sym%String.eqb_neq Hnin Hfull. rewrite Hne.
      rewrite bool_decide_eq_false_2 by done.
      by rewrite (proj2 (Z.leb_le _ _) Hfull).
    + intros Hne%not_eq_sym%String.eqb_neq Hnin Hroom. rewrite Hne.
      rewrite bool_decide_eq_false_2 by done.
      rewrite (proj2 (Z.leb_gt _ _) Hroom). simpl. unfold save.
      rewrite list_lookup_insert_eq by done.
      eexists. split; [reflexivity|]. split; [reflexivity|].
      split; [by intros j Hj; rewrite list_lookup_insert_ne|].
      destruct (Z.leb_spec (Post.maxParticipants post)
                  (Post.currentParticipants post + 1)) as [Hle|Hgt];
        simpl; repeat split; auto; try done; try lia.
      rewrite Hst. discriminate.
Qed.

Lemma join_spec_witness :
  (∃ post',
     (join (demoDb (demoTrip 2 1 ["u1"] active)) "u2" 0).2
       = mkResponse 200
           (MessagePost "Successfully joined the trip" (Some post')) ∧
     Post.participants post' = ["u1"; "u2"] ∧ Post.status post' = full) ∧
  join (demoDb (demoTrip 2 2 ["u1"; "u2"] active)) "u3" 0
  = (demoDb (demoTrip 2 2 ["u1"; "u2"] active),
     reply 400 "This trip is already full").
Proof.
  split.
  - destruct (join_spec (demoDb (demoTrip 2 1 ["u1"] active)) "u2" 0)
      as [_ Hfound].
    destruct (Hfound (demoTrip 2 1 ["u1"] active) eq_refl eq_refl)
      as (_ & _ & _ & Hok).
    destruct Hok as (post' & Hres & _ & _ & Hps & _ & _ & _ & Hst & _).
    + discriminate.
    + intros [Heq|Hin]%elem_of_cons; [discriminate|].
      by apply elem_of_nil in Hin.
    + simpl. lia.
    + exists post'. repeat split; [exact Hres|exact Hps|].
      apply Hst. simpl. lia.
  - destruct (join_spec (demoDb (demoTrip 2 2 ["u1"; "u2"] active)) "u3" 0)
      as [_ Hfound].
    destruct (Hfound (demoTrip 2 2 ["u1"; "u2"] active) eq_refl eq_refl)
      as (_ & _ & Hfull & _).
    apply Hfull.
    + discriminate.
    + intros [Heq|Hin]%elem_of_cons; [discriminate|].
      apply elem_of_cons in Hin as [Heq|Hin]; [discriminate|].
      by apply elem_of_nil in Hin.
    + simpl. lia.
Defined.

(** A trip that has become full is closed by the status check: the
    answer to a further join is "This trip is no longer active", the
    capacity check is not reached. *)
Lemma join_full_trip db uid id post :
  posts db !! id = Some post → Post.status post = full →
  join db uid id = (db, reply 400 "This trip is no longer active").
Proof.
  intros Hpost Hst. unfold join, findById. by rewrite Hpost, Hst.
Qed.

Lemma handle_room db r :
  Forall roster_ok (posts db) → Forall room_ok (posts db) →
  Forall room_ok (posts (handle db r).1).
Proof.
  intros Hall Hroom. pose proof (chat_routes_posts db r) as Hchat.
  destruct r; simpl in *; rewrite ?Hchat; try done.
  - unfold createPost.
    destruct (createErrors b) eqn:Herr; [done|].
    destruct (notFuture now (PostBody.travelDate b)); [done|].
    destruct (DateText.cast (PostBody.travelDate b)) as [d|]; [|done].
    case_match; [done|]. simpl.
    apply Forall_app; split; [done|]. apply Forall_singleton.
    unfold createErrors in Herr. apply negb_false_iff in Herr.
    repeat (apply andb_prop in Herr as [Herr ?]).
    intros _. simpl. lia.
  - unfold join, findById.
    destruct (posts db !! id) as [post|] eqn:Hpost; [|done].
    repeat (case_match; [done|]). simpl. unfold save.
    apply Forall_insert; [done|].
    intros Hst. simpl in *.
    destruct (Z.leb_spec (Post.maxParticipants post)
                (Post.currentParticipants post + 1)); [done|].
    simpl. lia.
  - unfold leave, findById.
    destruct (posts db !! id) as [post|] eqn:Hpost; [|done].
    pose proof (Forall_lookup_1 _ _ _ _ Hall Hpost) as (_ & _ & Hmax & _).
    repeat (case_match; [done|]). simpl. unfold save.
    apply Forall_insert; [done|].
    unfold room_ok.
    destruct (bool_decide (Post.status post = full)); simpl; lia.
  - unfold addComment, findById.
    case_match; [done|].
    destruct (posts db !! id) as [post|] eqn:Hpost; [|done].
    pose proof (Forall_lookup_1 _ _ _ _ Hroom Hpost) as Hok.
    case_match; [done|].
    assert (Forall room_ok
              (posts (set_posts
                        (save (posts db) id
                           (Post.set_comments
                              (Post.comments post ++
                                 [Comment.mk uid (trim text) now]) post)) db)))
      as Hall'.
    { simpl. unfold save. apply Forall_insert; [done|]. exact Hok. }
    by case_match.
Qed.

(** In the states the server reaches, an active trip always has room:
    the "already full" answer of Join is never given there. *)
Lemma active_trip_has_room (us : gmap string User.t) (rs : list Request)
    id post :
  posts (run (initial us) rs) !! id = Some post →
  Post.status post = active →
  (Post.currentParticipants post < Post.maxParticipants post)%Z.
Proof.
  assert (Forall roster_ok (posts (initial us)) ∧
          Forall room_ok (posts (initial us))) as Hinit
    by (split; constructor).
  revert Hinit. generalize (initial us) as db.
  induction rs as [|r rs IH]; intros db [Hall Hroom] Hpost.
  - exact (Forall_lookup_1 _ _ _ _ Hroom Hpost).
  - simpl in Hpost. revert Hpost. apply IH.
    split; [by apply handle_roster|by apply handle_room].
Qed.

(** C3, disproved as stated: Leave does not look at the status.  On a
    completed trip the request of a participant other than the creator
    is accepted and the participant is removed. *)
Lemma leave_terminal_counterexample :
  posts (demoDb (demoTrip 4 2 ["u1"; "u2"] completed)) !! 0
    = Some (demoTrip 4 2 ["u1"; "u2"] completed)
  ∧ terminal (Post.status (demoTrip 4 2 ["u1"; "u2"] completed))
  ∧ leave (demoDb (demoTrip 4 2 ["u1"; "u2"] completed)) "u2" 0
    = (demoDb (demoTrip 4 1 ["u1"] completed),
       reply 200 "Successfully left the trip")
  ∧ Post.participants (demoTrip 4 1 ["u1"] completed)
    ≠ Post.participants (demoTrip 4 2 ["u1"; "u2"] completed).
Proof.
  split; [reflexivity|]. split; [by left|].
  split; [vm_compute; reflexivity|discriminate].
Qed.

(** C3, amended.  On a trip whose status is completed or cancelled,
    Join answers 400 "This trip is no longer active" (InvalidState)
    and changes nothing.  Leave has no status check: it never changes
    the terminal status, it rejects the creator and non-members
    without any change, and it removes any other participant from the
    roster. *)
Theorem terminal_trips db uid id post :
  posts db !! id = Some post → terminal (Post.status post) →
  join db uid id = (db, reply 400 "This trip is no longer active") ∧
  (∀ post', posts (leave db uid id).1 !! id = Some post' →
     Post.status post' = Post.status post) ∧
  (uid = Post.creator post ∨ uid ∉ Post.participants post →
     (leave db uid id).1 = db ∧ code (leave db uid id).2 = 400) ∧
  (uid ≠ Post.creator post → uid ∈ Post.participants post →
     (leave db uid id).2 = reply 200 "Successfully left the trip" ∧
     ∃ post', posts (leave db uid id).1 !! id = Some post' ∧
       Post.participants post'
         = filter (λ participant, participant ≠ uid)
             (Post.participants post)).
Proof.
  intros Hpost Hterm.
  pose proof (lookup_lt_Some _ _ _ Hpost) as Hlt.
  assert (Post.status post ≠ active ∧ Post.status post ≠ full)
    as [Hna Hnf] by (destruct Hterm as [-> | ->]; done).
  unfold join, leave, findById. rewrite Hpost.
  rewrite (bool_decide_eq_false_2 _ Hna). simpl.
  split; [done|].
  destruct (String.eqb_spec (Post.creator post) uid) as [Heq|Hne].
  { simpl. rewrite Hpost. split; [by intros post' [= <-]|].
    split; [done|]. intros Hne. by subst uid. }
  case_bool_decide as Hin; simpl.
  - rewrite (bool_decide_eq_false_2 _ Hnf). unfold save.
    rewrite list_lookup_insert_eq by done.
    split; [by intros post' [= <-]|].
    split; [intros [->|Hnin]; done|].
    intros _ _. split; [done|]. eexists. split; reflexivity.
  - rewrite Hpost. split; [by intros post' [= <-]|].
    split; [done|]. intros _ Hin'. done.
Qed.

Lemma terminal_trips_witness :
  join (demoDb (demoTrip 4 2 ["u1"; "u2"] cancelled)) "u3" 0
  = (demoDb (demoTrip 4 2 ["u1"; "u2"] cancelled),
     reply 400 "This trip is no longer active").
Proof.
  apply (terminal_trips (demoDb (demoTrip 4 2 ["u1"; "u2"] cancelled))
           "u3" 0 (demoTrip 4 2 ["u1"; "u2"] cancelled)).
  - reflexivity.
  - right. reflexivity.
Defined.

(** C4. Leave on an absent trip answers 404 (NotFound).  On a stored
    trip it answers 400 "Trip creator cannot leave the trip"
    (CreatorCannotLeave) whenever the user is the creator, whatever
    else holds; 400 "You are not part of this trip" (NotMember) when
    the user is not among the participants; and otherwise it removes
    the user from the participants, decrements the counter, and sets
    a full trip back to active (any other status is kept). *)
Theorem leave_spec db uid id :
  (posts db !! id = None →
   leave db uid id = (db, reply 404 "Post not found")) ∧
  (∀ post, posts db !! id = Some post →
     (uid = Post.creator post →
      leave db uid id
        = (db, reply 400 "Trip creator cannot leave the trip")) ∧
     (uid ≠ Post.creator post → uid ∉ Post.participants post →
      leave db uid id = (db, reply 400 "You are not part of this trip")) ∧
     (uid ≠ Post.creator post → uid ∈ Post.participants post →
      ∃ post',
        (leave db uid id).2 = reply 200 "Successfully left the trip" ∧
        posts (leave db uid id).1 !! id = Some post' ∧
        (∀ j, j ≠ id → posts (leave db uid id).1 !! j = posts db !! j) ∧
        Post.participants post'
          = filter (λ participant, participant ≠ uid)
              (Post.participants post) ∧
        (uid ∉ Post.participants post') ∧
        (∀ v, v ≠ uid →
           (v ∈ Post.participants post' ↔ v ∈ Post.participants post)) ∧
        Post.currentParticipants post'
          = (Post.currentParticipants post - 1)%Z ∧
        (Post.status post = full → Post.status post' = active) ∧
        (Post.status post ≠ full →
         Post.status post' = Post.status post))).
Proof.
  unfold leave, findById. split.
  - by intros ->.
  - intros post Hpost. rewrite Hpost.
    pose proof (lookup_lt_Some _ _ _ Hpost) as Hlt.
    repeat split.
    + intros ->. by rewrite String.eqb_refl.
    + intros Hne%not_eq_sym%String.eqb_neq Hnin. rewrite Hne.
      by rewrite bool_decide_eq_false_2.
    + intros Hne%not_eq_sym%String.eqb_neq Hin. rewrite Hne.
      rewrite bool_decide_eq_true_2 by done. simpl. unfold save.
      rewrite list_lookup_insert_eq by done.
      eexists. split; [reflexivity|]. split; [reflexivity|].
      split; [by intros j Hj; rewrite list_lookup_insert_ne|].
      case_bool_decide as Hfull; simpl; repeat split; try done.
      all: try (rewrite list_elem_of_filter; tauto).
      all: try (rewrite list_elem_of_filter; intros; tauto).
Qed.

Lemma leave_spec_witness :
  ∃ post',
    posts (leave (demoDb (demoTrip 2 2 ["u1"; "u2"] full)) "u2" 0).1 !! 0
      = Some post' ∧
    Post.participants post' = ["u1"] ∧ Post.status post' = active.
Proof.
  destruct (leave_spec (demoDb (demoTrip 2 2 ["u1"; "u2"] full)) "u2" 0)
    as [_ Hfound].
  destruct (Hfound (demoTrip 2 2 ["u1"; "u2"] full) eq_refl)
    as (_ & _ & Hok).
  destruct Hok as (post' & _ & Hpost' & _ & Hps & _ & _ & _ & Hst & _).
  - discriminate.
  - apply elem_of_cons. right. apply elem_of_cons. by left.
  - exists post'. split; [exact Hpost'|]. split; [exact Hps|].
    apply Hst. reflexivity.
Defined.

Lemma length_nonempty (s : string) :
  1 ≤ String.length s → String.eqb s EmptyString = false.
Proof. destruct s; simpl; [lia|done]. Qed.

(** Comments within the texts of the embedding, whose characters are
    one UTF-16 code unit each.  On a stored trip, such a comment whose
    trimmed text has between 1 and 500 characters is accepted and
    appended, with the trimmed text and the server's date: the handler
    reads neither the status of the trip nor its participants, and
    changes neither.  The bound on the text is the one place where the
    restriction matters: a text of 300 characters outside the Basic
    Multilingual Plane passes the route's [isLength] with 300 and
    fails the schema's [maxlength] with 600, so that [save] throws and
    the handler answers 500 without a comment appended. *)
Theorem addComment_spec now db uid id text post :
  posts db !! id = Some post →
  1 ≤ String.length (trim text) ≤ 500 →
  ∃ post',
    (addComment now db uid id text).2
      = mkResponse 200
          (MessageComments "Comment added successfully"
             (Post.comments post ++ [Comment.mk uid (trim text) now])) ∧
    posts (addComment now db uid id text).1 !! id = Some post' ∧
    (∀ j, j ≠ id →
       posts (addComment now db uid id text).1 !! j = posts db !! j) ∧
    Post.comments post'
      = Post.comments post ++ [Comment.mk uid (trim text) now] ∧
    Post.status post' = Post.status post ∧
    Post.participants post' = Post.participants post ∧
    Post.currentParticipants post' = Post.currentParticipants post.
Proof.
  intros Hpost [Hlo Hhi].
  pose proof (lookup_lt_Some _ _ _ Hpost) as Hlt.
  unfold addComment, findById, isLength, Post.validateComment.
  rewrite Hpost. simpl.
  rewrite (length_nonempty _ Hlo).
  rewrite (proj2 (Nat.leb_le _ _) Hhi).
  destruct (String.length (trim text)) as [|n] eqn:Hn; [lia|].
  simpl. unfold save. rewrite list_lookup_insert_eq by done. simpl.
  eexists. split; [reflexivity|].
  rewrite list_lookup_insert_eq by done.
  split; [reflexivity|].
  split; [by intros j Hj; rewrite list_lookup_insert_ne|done].
Qed.

Lemma addComment_spec_witness :
  ∃ post',
    (addComment 7 (demoDb (demoTrip 2 2 ["u1"; "u2"] cancelled)) "u9" 0
       "  see you  ").2
      = mkResponse 200
          (MessageComments "Comment added successfully"
             [Comment.mk "u9" "see you" 7]) ∧
    Post.status post' = cancelled.
Proof.
  destruct (addComment_spec 7 (demoDb (demoTrip 2 2 ["u1"; "u2"] cancelled))
              "u9" 0 "  see you  "
              (demoTrip 2 2 ["u1"; "u2"] cancelled))
    as (post' & Hres & _ & _ & _ & Hst & _).
  - reflexivity.
  - assert (String.length (trim "  see you  ") = 7) as ->
      by (vm_compute; reflexivity).
    lia.
  - exists post'. split; [exact Hres|exact Hst].
Defined.
End Roster.

(** ** Conversations *)

Section Conversations.
Implicit Types (db : Db) (uid : UserId) (chat : Chat.t).

Lemma hasAll_swap (a b : UserId) chat :
  hasAll [a; b] chat ↔ hasAll [b; a] chat.
Proof. unfold hasAll. rewrite !Forall_cons, !Forall_nil. tauto. Qed.

Lemma hasAll_perm (a b : UserId) chat :
  Chat.participants chat ≡ₚ [a; b] → hasAll [a; b] chat.
Proof.
  intros Hp. unfold hasAll. rewrite !Forall_cons, Forall_nil, !Hp.
  set_solver.
Qed.

(** What a request can do to the participant lists: nothing, or
    append a pair that no stored conversation holds. *)
Lemma handle_participants db r :
  Chat.participants <$> chats (handle db r).1
    = Chat.participants <$> chats db
  ∨ ∃ a b,
      findOne (hasAll [a; b]) (chats db) = None ∧
      Chat.participants <$> chats (handle db r).1
        = (Chat.participants <$> chats db) ++ [[a; b]].
Proof.
  destruct r; simpl.
  - left. unfold createPost. repeat case_match; simplify_eq/=; done.
  - left. unfold join. repeat case_match; simplify_eq/=; done.
  - left. unfold leave. repeat case_match; simplify_eq/=; done.
  - left. unfold addComment. repeat case_match; simplify_eq/=; done.
  - by left.
  - unfold getOrCreateChat.
    destruct (users db !! userId); [|by left].
    destruct (findOne (hasAll [uid; userId]) (chats db)) as [[i c]|] eqn:Hf;
      [by left|].
    right. exists uid, userId. split; [done|].
    simpl. case_match; simpl; by rewrite fmap_app.
  - left. unfold sendMessage, findById.
    case_match; [done|].
    destruct (chats db !! chatId) as [c|] eqn:Hc; [|done].
    case_match; [done|].
    assert (Chat.participants <$>
              save (chats db) chatId
                (Chat.set_lastMessage t2
                   (Chat.set_messages
                      (Chat.messages c ++
                         [Message.mk uid (trim content) t1 false]) c))
            = Chat.participants <$> chats db) as Heq.
    { unfold save. rewrite list_fmap_insert. simpl.
      apply list_insert_id. by rewrite list_lookup_fmap, Hc. }
    by case_match.
  - left. unfold markRead, findById.
    destruct (chats db !! chatId) as [c|] eqn:Hc; [|done].
    case_match; [done|]. simpl.
    unfold save. rewrite list_fmap_insert. simpl.
    apply list_insert_id. by rewrite list_lookup_fmap, Hc.
Qed.

Lemma pairs_ok_snoc (cs : list Chat.t) (a b : UserId) :
  pairs_ok (Chat.participants <$> cs) →
  findOne (hasAll [a; b]) cs = None →
  pairs_ok ((Chat.participants <$> cs) ++ [[a; b]]).
Proof.
  intros [Htwo Huniq] Hnone.
  assert (∀ i ps, (Chat.participants <$> cs) !! i = Some ps →
                  ¬ ps ≡ₚ [a; b]) as Hfresh.
  { intros i ps Hi Hperm.
    apply list_lookup_fmap_Some in Hi as (c & -> & Hc).
    apply list_find_None in Hnone.
    apply (Forall_lookup_1 _ _ _ _ Hnone Hc).
    by apply hasAll_perm. }
  split.
  - apply Forall_app. split; [done|]. apply Forall_singleton. eauto.
  - intros i j pi pj Hi Hj Hperm.
    apply lookup_snoc_Some in Hi as [[Hilt Hi]|[Hieq <-]];
      apply lookup_snoc_Some in Hj as [[Hjlt Hj]|[Hjeq <-]].
    + eauto.
    + destruct (Hfresh _ _ Hi Hperm).
    + symmetry in Hperm. destruct (Hfresh _ _ Hj Hperm).
    + congruence.
Qed.

Lemma run_pairs_ok us rs :
  pairs_ok (Chat.participants <$> chats (run (initial us) rs)).
Proof.
  assert (pairs_ok (Chat.participants <$> chats (initial us))) as Hinit.
  { split; [constructor|]. intros i j pi pj Hi. by simpl in Hi. }
  revert Hinit. generalize (initial us) as db.
  induction rs as [|r rs IH]; intros db Hok; [done|].
  simpl. apply IH.
  destruct (handle_participants db r) as [->|(a & b & Hnone & ->)];
    [done|by apply pairs_ok_snoc].
Qed.

(** Once a pair has been served, every later request of the pair, in
    either order, is answered with the same conversation and writes
    nothing. *)
Lemma getOrCreateChat_stable t0 db (A B : UserId) postId :
  is_Some (users db !! A) → is_Some (users db !! B) →
  ∃ i chat,
    (getOrCreateChat t0 db A B postId).2 = mkResponse 200 (ChatDoc i chat) ∧
    chats (getOrCreateChat t0 db A B postId).1 !! i = Some chat ∧
    (∀ t p, getOrCreateChat t (getOrCreateChat t0 db A B postId).1 B A p
            = ((getOrCreateChat t0 db A B postId).1,
               mkResponse 200 (ChatDoc i chat))) ∧
    (∀ t p, getOrCreateChat t (getOrCreateChat t0 db A B postId).1 A B p
            = ((getOrCreateChat t0 db A B postId).1,
               mkResponse 200 (ChatDoc i chat))).
Proof.
  intros [uA HA] [uB HB].
  assert (∀ db' i chat,
            users db' = users db →
            findOne (hasAll [A; B]) (chats db') = Some (i, chat) →
            (∀ t p, getOrCreateChat t db' B A p
                    = (db', mkResponse 200 (ChatDoc i chat))) ∧
            (∀ t p, getOrCreateChat t db' A B p
                    = (db', mkResponse 200 (ChatDoc i chat)))) as Hagain.
  { intros db' i chat Hus Hf. split; intros t p; unfold getOrCreateChat;
      rewrite Hus, ?HA, ?HB.
    - unfold findOne in *.
      rewrite (list_find_ext _ (hasAll [A; B])), Hf; [done|].
      intros c. apply hasAll_swap.
    - by rewrite Hf. }
  destruct (findOne (hasAll [A; B]) (chats db)) as [[i chat]|] eqn:Hf.
  - assert (getOrCreateChat t0 db A B postId
            = (db, mkResponse 200 (ChatDoc i chat))) as ->
      by (unfold getOrCreateChat; by rewrite HB, Hf).
    exists i, chat. simpl. split; [done|].
    split; [by apply list_find_Some in Hf as (? & _)|].
    by apply Hagain.
  - assert (getOrCreateChat t0 db A B postId
            = (set_chats (chats db ++ [Chat.mk [A; B] postId [] t0]) db,
               mkResponse 200
                 (ChatDoc (length (chats db)) (Chat.mk [A; B] postId [] t0))))
      as ->.
    { unfold getOrCreateChat. rewrite HB, Hf. simpl. unfold findById.
      by rewrite list_lookup_middle. }
    exists (length (chats db)), (Chat.mk [A; B] postId [] t0). simpl.
    split; [done|]. split; [by rewrite list_lookup_middle|].
    apply Hagain; [done|]. simpl. unfold findOne in *.
    rewrite list_find_app_r by done. simpl.
    rewrite decide_True; [done|]. by apply hasAll_perm.
Qed.

Lemma run_snoc db (rs : list Request) (r : Request) :
  run db (rs ++ [r]) = (handle (run db rs) r).1.
Proof. unfold run. by rewrite fold_left_app. Qed.

(** The conversation find-or-create returns is stored, holds the caller
    and the counterpart, and is either an old one, with nothing
    written, or the one new conversation behind the old ones. *)
Lemma getOrCreateChat_found t0 db (A B : UserId) postId :
  is_Some (users db !! B) →
  ∃ i chat,
    (getOrCreateChat t0 db A B postId).2 = mkResponse 200 (ChatDoc i chat) ∧
    chats (getOrCreateChat t0 db A B postId).1 !! i = Some chat ∧
    A ∈ Chat.participants chat ∧ B ∈ Chat.participants chat ∧
    (chats (getOrCreateChat t0 db A B postId).1 = chats db ∨
     chats (getOrCreateChat t0 db A B postId).1 = chats db ++ [chat]).
Proof.
  intros [uB HB]. unfold getOrCreateChat. rewrite HB.
  destruct (findOne (hasAll [A; B]) (chats db)) as [[i chat]|] eqn:Hf.
  - apply list_find_Some in Hf as (Hi & Hall & _).
    unfold hasAll in Hall. rewrite !Forall_cons in Hall.
    destruct Hall as (HA' & HB' & _).
    exists i, chat. simpl. split; [done|]. split; [done|].
    split; [done|]. split; [done|]. by left.
  - simpl. unfold findById. rewrite list_lookup_middle by done. simpl.
    eexists _, _. split; [done|].
    rewrite list_lookup_middle by done. split; [done|]. simpl.
    split; [apply elem_of_cons; by left|].
    split; [apply elem_of_cons; right; apply elem_of_cons; by left|].
    by right.
Qed.

Lemma pair_of_two (A B a b : UserId) :
  A ≠ B → A ∈ [a; b] → B ∈ [a; b] → [a; b] = [A; B] ∨ [a; b] = [B; A].
Proof.
  intros Hne HA HB.
  apply elem_of_cons in HA as [->|HA]; apply elem_of_cons in HB as [->|HB];
    try apply list_elem_of_singleton in HA as ->;
    try apply list_elem_of_singleton in HB as ->;
    try done; auto.
Qed.

(** C5, disproved as stated: nothing keeps a user from requesting a
    conversation with themself, and the conversation stored then lists
    one user id twice, not two user ids. *)
Lemma self_conversation_counterexample :
  getOrCreateChat 1 (initial demoUsers) "u1" "u1" None
  = (mkDb demoUsers [] [Chat.mk ["u1"; "u1"] None [] 1],
     mkResponse 200 (ChatDoc 0 (Chat.mk ["u1"; "u1"] None [] 1)))
  ∧ ¬ ∃ a b : UserId,
        a ≠ b ∧
        Chat.participants (Chat.mk ["u1"; "u1"] None [] 1) = [a; b].
Proof.
  split; [vm_compute; reflexivity|].
  intros (a & b & Hne & Heq). simpl in Heq. congruence.
Qed.

(** C5, amended.  In every state the server reaches, every conversation
    lists exactly two user ids (the same id twice when a user requested
    a conversation with themself), and no two stored conversations hold
    the same unordered pair.  For users [A] and [B] of the directory, a
    find-or-create of [A] with [B] returns a stored conversation that
    holds [A] and [B]: an old one, with nothing written, or one new
    conversation behind the old ones.  When [A] and [B] differ, it is
    the conversation of exactly the two, and the only stored one that
    holds both.  Every later find-or-create of the pair, in either
    order, returns the same conversation again and writes nothing. *)
Theorem one_conversation_per_pair (us : gmap string User.t)
    (rs : list Request) :
  (∀ i chat, chats (run (initial us) rs) !! i = Some chat →
             ∃ a b, Chat.participants chat = [a; b]) ∧
  (∀ i j ci cj,
     chats (run (initial us) rs) !! i = Some ci →
     chats (run (initial us) rs) !! j = Some cj →
     Chat.participants ci ≡ₚ Chat.participants cj → i = j) ∧
  (∀ t0 (A B : UserId) postId,
     is_Some (users (run (initial us) rs) !! A) →
     is_Some (users (run (initial us) rs) !! B) →
     ∃ i chat,
       (getOrCreateChat t0 (run (initial us) rs) A B postId).2
         = mkResponse 200 (ChatDoc i chat) ∧
       chats (getOrCreateChat t0 (run (initial us) rs) A B postId).1 !! i
         = Some chat ∧
       A ∈ Chat.participants chat ∧ B ∈ Chat.participants chat ∧
       (chats (getOrCreateChat t0 (run (initial us) rs) A B postId).1
          = chats (run (initial us) rs) ∨
        chats (getOrCreateChat t0 (run (initial us) rs) A B postId).1
          = chats (run (initial us) rs) ++ [chat]) ∧
       (A ≠ B →
        (Chat.participants chat = [A; B] ∨
         Chat.participants chat = [B; A]) ∧
        ∀ j cj,
          chats (getOrCreateChat t0 (run (initial us) rs) A B postId).1 !! j
            = Some cj →
          A ∈ Chat.participants cj → B ∈ Chat.participants cj → j = i) ∧
       (∀ t p,
          getOrCreateChat t
            (getOrCreateChat t0 (run (initial us) rs) A B postId).1 B A p
          = ((getOrCreateChat t0 (run (initial us) rs) A B postId).1,
             mkResponse 200 (ChatDoc i chat))) ∧
       (∀ t p,
          getOrCreateChat t
            (getOrCreateChat t0 (run (initial us) rs) A B postId).1 A B p
          = ((getOrCreateChat t0 (run (initial us) rs) A B postId).1,
             mkResponse 200 (ChatDoc i chat)))).
Proof.
  destruct (run_pairs_ok us rs) as [Htwo Huniq].
  split; [|split].
  - intros i chat Hi.
    apply (Forall_lookup_1 _ _ i (Chat.participants chat)) in Htwo; [done|].
    by rewrite list_lookup_fmap, Hi.
  - intros i j ci cj Hi Hj Hperm.
    apply (Huniq i j (Chat.participants ci) (Chat.participants cj));
      [by rewrite list_lookup_fmap, Hi|by rewrite list_lookup_fmap, Hj|done].
  - intros t0 A B postId HA HB.
    destruct (getOrCreateChat_stable t0 _ A B postId HA HB)
      as (i & chat & Hres & _ & Hba & Hab).
    destruct (getOrCreateChat_found t0 (run (initial us) rs) A B postId HB)
      as (i' & chat' & Hres' & Hst & HinA & HinB & Hgrow).
    rewrite Hres in Hres'. injection Hres' as <- <-.
    exists i, chat. split; [done|]. split; [done|]. split; [done|].
    split; [done|]. split; [done|]. split; [|by split].
    intros Hne.
    destruct (run_pairs_ok us (rs ++ [FindOrCreate t0 A B postId]))
      as [Htwo1 Huniq1].
    rewrite run_snoc in Htwo1, Huniq1. simpl in Htwo1, Huniq1.
    assert (∀ j cj,
              chats (getOrCreateChat t0 (run (initial us) rs) A B postId).1
                !! j = Some cj →
              A ∈ Chat.participants cj → B ∈ Chat.participants cj →
              Chat.participants cj = [A; B] ∨ Chat.participants cj = [B; A])
      as Hpair.
    { intros j cj Hj HAj HBj.
      destruct (Forall_lookup_1 _ _ j (Chat.participants cj) Htwo1)
        as (a & b & Hab'); [by rewrite list_lookup_fmap, Hj|].
      rewrite Hab' in *. by apply pair_of_two. }
    split; [by apply (Hpair i)|].
    intros j cj Hj HAj HBj.
    apply (Huniq1 j i (Chat.participants cj) (Chat.participants chat));
      [by rewrite list_lookup_fmap, Hj|by rewrite list_lookup_fmap, Hst|].
    destruct (Hpair j cj Hj HAj HBj) as [-> | ->];
      destruct (Hpair i chat Hst HinA HinB) as [-> | ->];
      try done; apply Permutation_swap.
Qed.

Lemma one_conversation_per_pair_witness :
  ∃ i chat,
    (getOrCreateChat 3
       (run (initial demoUsers) [FindOrCreate 1 "u2" "u1" None])
       "u1" "u2" None).2
      = mkResponse 200 (ChatDoc i chat) ∧
    Chat.participants chat = ["u2"; "u1"] ∧
    ∀ t p,
      getOrCreateChat t
        (getOrCreateChat 3
           (run (initial demoUsers) [FindOrCreate 1 "u2" "u1" None])
           "u1" "u2" None).1 "u2" "u1" p
      = ((getOrCreateChat 3
            (run (initial demoUsers) [FindOrCreate 1 "u2" "u1" None])
            "u1" "u2" None).1,
         mkResponse 200 (ChatDoc i chat)).
Proof.
  destruct (one_conversation_per_pair demoUsers
              [FindOrCreate 1 "u2" "u1" None]) as (_ & _ & Hsame).
  destruct (Hsame 3%Z "u1" "u2" None)
    as (i & chat & Hres & _ & _ & _ & _ & Hpair & Hba & _).
  - exists (User.mk [] []). vm_compute. reflexivity.
  - exists (User.mk [] []). vm_compute. reflexivity.
  - exists i, chat. split; [exact Hres|]. split; [|exact Hba].
    vm_compute in Hres. injection Hres as <- <-. reflexivity.
Defined.

(** C6, disproved as stated: the handler reads the clock twice, once
    for the message and once for [lastMessage]; when the clock ticks
    in between, [lastMessage] is not the timestamp of the message
    just appended. *)
Lemma sendMessage_clock_counterexample :
  sendMessage 1000 1001 (chatDb (demoChat [] 0)) "u1" 0 "hello"
  = (chatDb (demoChat [Message.mk "u1" "hello" 1000 false] 1001),
     mkResponse 200
       (MessageSent "Message sent successfully"
          (Some (Message.mk "u1" "hello" 1000 false))))
  ∧ Chat.lastMessage (demoChat [Message.mk "u1" "hello" 1000 false] 1001)
    ≠ Message.timestamp (Message.mk "u1" "hello" 1000 false).
Proof. split; [vm_compute; reflexivity|discriminate]. Qed.

(** C6, amended.  A participant's message whose trimmed content has
    between 1 and 1000 characters is appended with [read = false] and
    the server's clock reading [t1] as timestamp, and that message is
    returned; [lastMessage] is set to [t2], the clock reading taken
    right after, which is the timestamp of the most recent message
    whenever the two readings coincide. *)
Theorem sendMessage_spec t1 t2 db uid chatId content chat :
  chats db !! chatId = Some chat →
  uid ∈ Chat.participants chat →
  1 ≤ String.length (trim content) ≤ 1000 →
  ∃ chat',
    (sendMessage t1 t2 db uid chatId content).2
      = mkResponse 200
          (MessageSent "Message sent successfully"
             (Some (Message.mk uid (trim content) t1 false))) ∧
    chats (sendMessage t1 t2 db uid chatId content).1 !! chatId
      = Some chat' ∧
    Chat.messages chat'
      = Chat.messages chat ++ [Message.mk uid (trim content) t1 false] ∧
    last (Chat.messages chat')
      = Some (Message.mk uid (trim content) t1 false) ∧
    Chat.participants chat' = Chat.participants chat ∧
    Chat.lastMessage chat' = t2 ∧
    (t1 = t2 →
     Some (Chat.lastMessage chat')
     = Message.timestamp <$> last (Chat.messages chat')).
Proof.
  intros Hchat Hin [Hlo Hhi].
  pose proof (lookup_lt_Some _ _ _ Hchat) as Hlt.
  unfold sendMessage, findById, isLength. rewrite Hchat.
  rewrite (proj2 (Nat.leb_le _ _) Hlo), (proj2 (Nat.leb_le _ _) Hhi).
  rewrite bool_decide_eq_true_2 by done. simpl. unfold save.
  rewrite list_lookup_insert_eq by done. simpl.
  rewrite list_lookup_insert_eq by done.
  eexists. split; [by rewrite last_snoc|].
  split; [reflexivity|]. simpl. rewrite last_snoc.
  repeat split; try done. by intros ->.
Qed.

Lemma sendMessage_spec_witness :
  ∃ chat',
    chats (sendMessage 5 5 (chatDb (demoChat [] 0)) "u2" 0 " hi ").1 !! 0
      = Some chat' ∧
    Chat.messages chat' = [Message.mk "u2" "hi" 5 false] ∧
    Some (Chat.lastMessage chat')
    = Message.timestamp <$> last (Chat.messages chat').
Proof.
  destruct (sendMessage_spec 5 5 (chatDb (demoChat [] 0)) "u2" 0 " hi "
              (demoChat [] 0))
    as (chat' & _ & Hchat' & Hms & _ & _ & _ & Hlast).
  - reflexivity.
  - apply elem_of_cons. right. apply elem_of_cons. by left.
  - assert (String.length (trim " hi ") = 2) as ->
      by (vm_compute; reflexivity).
    lia.
  - exists chat'. split; [exact Hchat'|]. split; [exact Hms|].
    apply Hlast. reflexivity.
Defined.

Lemma markMessage_idem uid (m : Message.t) :
  markMessage uid (markMessage uid m) = markMessage uid m.
Proof.
  unfold markMessage.
  destruct (String.eqb (Message.sender m) uid) eqn:Hs; simpl;
    by rewrite Hs.
Qed.

Lemma unread_after_markMessage uid (ms : list Message.t) :
  List.filter (unreadFor uid) (markMessage uid <$> ms) = [].
Proof.
  induction ms as [|m ms IH]; [done|]. simpl.
  unfold unreadFor, markMessage at 1 2.
  destruct (String.eqb (Message.sender m) uid) eqn:Hs; simpl;
    rewrite Hs; simpl; exact IH.
Qed.

(** C7. For a participant [uid] of a stored conversation, MarkRead
    sets [read] on every message whose sender is not [uid] and leaves
    the messages [uid] sent, and every other field, as they are; no
    flag goes from true to false; the reader has no unread message
    afterwards; and a second MarkRead right after the first writes
    nothing, so the unread count stays the same. *)
Theorem markRead_spec db uid chatId chat :
  chats db !! chatId = Some chat →
  uid ∈ Chat.participants chat →
  ∃ chat',
    (markRead db uid chatId).2 = reply 200 "Messages marked as read" ∧
    chats (markRead db uid chatId).1 !! chatId = Some chat' ∧
    Chat.participants chat' = Chat.participants chat ∧
    length (Chat.messages chat') = length (Chat.messages chat) ∧
    (∀ k m, Chat.messages chat !! k = Some m →
       ∃ m', Chat.messages chat' !! k = Some m' ∧
         Message.sender m' = Message.sender m ∧
         Message.content m' = Message.content m ∧
         Message.timestamp m' = Message.timestamp m ∧
         (Message.sender m ≠ uid → Message.read m' = true) ∧
         (Message.sender m = uid → Message.read m' = Message.read m) ∧
         (Message.read m = true → Message.read m' = true)) ∧
    length (List.filter (unreadFor uid) (Chat.messages chat')) = 0 ∧
    markRead (markRead db uid chatId).1 uid chatId
    = ((markRead db uid chatId).1, reply 200 "Messages marked as read").
Proof.
  intros Hchat Hin.
  pose proof (lookup_lt_Some _ _ _ Hchat) as Hlt.
  assert (markRead db uid chatId
          = (set_chats
               (<[chatId :=
                    Chat.set_messages (markMessage uid <$> Chat.messages chat)
                      chat]> (chats db)) db,
             reply 200 "Messages marked as read")) as ->.
  { unfold markRead, findById. rewrite Hchat.
    by rewrite bool_decide_eq_true_2. }
  simpl. rewrite list_lookup_insert_eq by done.
  eexists. split; [done|]. split; [reflexivity|]. simpl.
  split; [done|]. split; [by rewrite length_fmap|].
  split; [|split].
  - intros k m Hk. exists (markMessage uid m).
    rewrite list_lookup_fmap, Hk. split; [done|].
    unfold markMessage.
    destruct (String.eqb_spec (Message.sender m) uid) as [Heq|Hne]; simpl;
      repeat split; try done.
  - by rewrite unread_after_markMessage.
  - unfold markRead, findById. simpl.
    rewrite list_lookup_insert_eq by done. simpl.
    rewrite bool_decide_eq_true_2 by done. simpl. unfold save, set_chats.
    simpl. rewrite list_insert_insert_eq.
    rewrite <- list_fmap_compose.
    rewrite (list_fmap_ext (markMessage uid ∘ markMessage uid)
               (markMessage uid) (Chat.messages chat));
      [done|].
    intros _ m _. apply markMessage_idem.
Qed.

Lemma markRead_spec_witness :
  ∃ chat',
    chats (markRead
             (chatDb (demoChat [Message.mk "u1" "hello" 5 false;
                                Message.mk "u2" "hi" 6 false] 6))
             "u2" 0).1 !! 0 = Some chat' ∧
    Message.read <$> Chat.messages chat' = [true; false].
Proof.
  destruct (markRead_spec
              (chatDb (demoChat [Message.mk "u1" "hello" 5 false;
                                 Message.mk "u2" "hi" 6 false] 6))
              "u2" 0
              (demoChat [Message.mk "u1" "hello" 5 false;
                         Message.mk "u2" "hi" 6 false] 6))
    as (chat' & _ & Hchat' & _).
  - reflexivity.
  - apply elem_of_cons. right. apply elem_of_cons. by left.
  - exists chat'. split; [exact Hchat'|].
    vm_compute in Hchat'. injection Hchat' as <-. reflexivity.
Defined.
Lemma elem_of_find_docs (P : Chat.t → Prop) `{∀ x, Decision (P x)}
    (cs : list Chat.t) (d : nat * Chat.t) :
  d ∈ find_docs P cs ↔ P d.2 ∧ cs !! d.1 = Some d.2.
Proof.
  unfold find_docs. rewrite list_elem_of_filter, elem_of_lookup_imap.
  split.
  - intros [HP (i & x & -> & Hi)]. done.
  - intros [HP Hd]. split; [done|]. exists d.1, d.2. by destruct d.
Qed.








End Conversations.

(** ** Presence registry *)

Section Presence.
Implicit Types (activeUsers : gmap string string) (socket : Socket.t).

(** C9, disproved as stated: the disconnect handler deletes the entry
    of the socket's user without comparing the stored socket id.
    After [s1] and then [s2] registered for [u], the disconnect of
    [s1] removes the registration of [s2]. *)
Lemma stale_disconnect_counterexample :
  (on_join (on_join ∅ (Socket.mk "s1" None) "u").1
     (Socket.mk "s2" None) "u").1 !! "u" = Some "s2"
  ∧ on_disconnect
      (on_join (on_join ∅ (Socket.mk "s1" None) "u").1
         (Socket.mk "s2" None) "u").1
      (on_join ∅ (Socket.mk "s1" None) "u").2 !! "u" = None.
Proof. split; vm_compute; reflexivity. Qed.

(** C9, amended.  Registering always stores the socket's id for the
    user, replacing any id stored before, leaves the other users'
    entries alone and records the user on the socket, in place of the
    user recorded there before.  A disconnect removes the entry of the
    user id the socket recorded last, when that id is not the empty
    string, whatever socket id is stored for it, and leaves every
    other entry alone: an id the socket registered earlier keeps its
    entry.  A socket that never registered, or whose last id is the
    empty string, removes nothing. *)
Theorem presence_spec activeUsers socket (userId : string) :
  (on_join activeUsers socket userId).1 !! userId = Some (Socket.id socket)
  ∧ (∀ other, other ≠ userId →
       (on_join activeUsers socket userId).1 !! other
       = activeUsers !! other)
  ∧ Socket.userId (on_join activeUsers socket userId).2 = Some userId
  ∧ Socket.id (on_join activeUsers socket userId).2 = Socket.id socket
  ∧ (Socket.userId socket = Some userId → userId ≠ EmptyString →
     on_disconnect activeUsers socket !! userId = None ∧
     ∀ other, other ≠ userId →
       on_disconnect activeUsers socket !! other = activeUsers !! other)
  ∧ (Socket.userId socket = None →
     on_disconnect activeUsers socket = activeUsers)
  ∧ (Socket.userId socket = Some EmptyString →
     on_disconnect activeUsers socket = activeUsers)
  ∧ (userId ≠ EmptyString →
     ∀ registry,
       on_disconnect registry (on_join activeUsers socket userId).2
       = delete userId registry)
  ∧ (∀ earlier, earlier ≠ userId →
       on_disconnect
         (on_join (on_join activeUsers socket earlier).1
            (on_join activeUsers socket earlier).2 userId).1
         (on_join (on_join activeUsers socket earlier).1
            (on_join activeUsers socket earlier).2 userId).2
       !! earlier = Some (Socket.id socket)).
Proof.
  unfold on_join, on_disconnect. simpl.
  split; [apply lookup_insert_eq|].
  split; [by intros other Hne; apply lookup_insert_ne|].
  split; [done|]. split; [done|]. split; [|split; [|split; [|split]]].
  - intros -> Hne. simpl.
    rewrite (proj2 (String.eqb_neq userId EmptyString) Hne). simpl.
    split; [apply lookup_delete_eq|].
    by intros other Ho; apply lookup_delete_ne.
  - by intros ->.
  - by intros ->.
  - intros Hne registry.
    by rewrite (proj2 (String.eqb_neq userId EmptyString) Hne).
  - intros earlier Hne.
    destruct (String.eqb userId EmptyString).
    + simpl. rewrite lookup_insert_ne by done. apply lookup_insert_eq.
    + simpl. rewrite lookup_delete_ne by done.
      rewrite lookup_insert_ne by done. apply lookup_insert_eq.
Qed.

Lemma presence_spec_witness :
  on_disconnect (<["u" := "s2"]> ∅) (Socket.mk "s1" (Some "u")) !! "u"
  = None
  ∧ on_disconnect (<["u" := "s2"]> ∅) (Socket.mk "s1" (Some EmptyString))
    = <["u" := "s2"]> ∅
  ∧ on_disconnect
      (on_join (on_join ∅ (Socket.mk "s1" None) "a").1
         (on_join ∅ (Socket.mk "s1" None) "a").2 "b").1
      (on_join (on_join ∅ (Socket.mk "s1" None) "a").1
         (on_join ∅ (Socket.mk "s1" None) "a").2 "b").2
    !! "a" = Some "s1".
Proof.
  split; [|split].
  - destruct (presence_spec (<["u" := "s2"]> ∅) (Socket.mk "s1" (Some "u"))
                "u") as (_ & _ & _ & _ & Hdis & _).
    apply Hdis; [reflexivity|discriminate].
  - destruct (presence_spec (<["u" := "s2"]> ∅)
                (Socket.mk "s1" (Some EmptyString)) "u")
      as (_ & _ & _ & _ & _ & _ & Hempty & _).
    apply Hempty. reflexivity.
  - destruct (presence_spec ∅ (Socket.mk "s1" None) "b")
      as (_ & _ & _ & _ & _ & _ & _ & _ & Hearlier).
    apply (Hearlier "a"). discriminate.
Defined.
End Presence.

(** * Further properties of the handlers *)

#[local] Set Warnings "-clear-no-such-hyp".

Section Runs.
Implicit Types (db : Db) (r : Request) (rs : list Request).

Lemma run_invariant (I : Db → Prop) :
  (∀ db r, I db → I (handle db r).1) →
  ∀ rs db, I db → I (run db rs).
Proof.
  intros Hstep rs. induction rs as [|r rs IH]; intros db HI; [done|].
  simpl. apply IH. by apply Hstep.
Qed.

Lemma run_relation (R : relation Db) :
  Reflexive R → Transitive R →
  (∀ db r, R db (handle db r).1) →
  ∀ rs db, R db (run db rs).
Proof.
  intros Hrefl Htrans Hstep rs.
  induction rs as [|r rs IH]; intros db; [done|].
  simpl. transitivity (handle db r).1; [apply Hstep|apply IH].
Qed.

(** X2. A request that is not answered with 200 or 201 leaves the whole
    database, trips, users and conversations, as it was: no handler
    writes before it rejects. *)
Theorem rejected_request_changes_nothing db r :
  code (handle db r).2 ≠ 200 → code (handle db r).2 ≠ 201 →
  (handle db r).1 = db.
Proof.
  intros H200 H201. destruct r; simpl in *.
  - unfold createPost in *. repeat case_match; simplify_eq/=; done.
  - unfold join in *. repeat case_match; simplify_eq/=; done.
  - unfold leave in *. repeat case_match; simplify_eq/=; done.
  - unfold addComment, findById, save in *.
    destruct (negb (isLength 1 (Some 500) (trim text))); [done|].
    destruct (posts db !! id) as [post|] eqn:Hpost; [|done].
    destruct (negb _); [done|]. simpl in *.
    rewrite list_lookup_insert_eq in * by eauto using lookup_lt_Some.
    done.
  - done.
  - unfold getOrCreateChat, findById in *.
    destruct (users db !! userId); [|done].
    destruct (findOne _ _) as [[i c]|]; [done|]. simpl in *.
    rewrite list_lookup_middle in * by done. done.
  - unfold sendMessage, findById, save in *.
    destruct (negb (isLength 1 (Some 1000) (trim content))); [done|].
    destruct (chats db !! chatId) as [chat|] eqn:Hchat; [|done].
    destruct (negb _); [done|]. simpl in *.
    rewrite list_lookup_insert_eq in * by eauto using lookup_lt_Some.
    done.
  - unfold markRead in *. repeat case_match; simplify_eq/=; done.
Qed.

Lemma rejected_request_changes_nothing_witness :
  (handle (demoDb (demoTrip 2 2 ["u1"; "u2"] full)) (Join "u3" 0)).1
  = demoDb (demoTrip 2 2 ["u1"; "u2"] full).
Proof.
  apply (rejected_request_changes_nothing
           (demoDb (demoTrip 2 2 ["u1"; "u2"] full)) (Join "u3" 0));
    vm_compute; discriminate.
Defined.
End Runs.

(** ** Trips: creation, bookkeeping and what never changes *)

Section Trips.
Implicit Types (db : Db) (uid : UserId) (id : nat) (post : Post.t).

(** X1. A creation answered with 201 stores one new trip behind the
    existing ones, under the next id.  The text of its travel date
    passed the ISO 8601 validator, the stored travel date is the cast
    of that text, and the JavaScript date of the text, if it has one,
    lies after the server's date (a text without one passes the
    comparison, so the stored date need not lie in the future).  The
    capacity of the trip is between 2 and 10, the creator is its only
    participant, the counter is 1, the status active, it has no
    comment; the trip is what [GET /api/posts/:id] then returns, the id
    is pushed to the creator's [tripsCreated], and no conversation
    changes. *)
Theorem createPost_created now db uid b :
  code (createPost now db uid b).2 = 201 →
  ∃ d post,
    DateText.isISO8601 (PostBody.travelDate b) = true ∧
    DateText.cast (PostBody.travelDate b) = Some d ∧
    (∀ d', DateText.parsed (PostBody.travelDate b) = Some d' →
           (now < d')%Z) ∧
    (createPost now db uid b).2
      = mkResponse 201 (MessagePost "Post created successfully" (Some post)) ∧
    posts (createPost now db uid b).1 = posts db ++ [post] ∧
    getPost (createPost now db uid b).1 (length (posts db))
      = (200, inl post) ∧
    users (createPost now db uid b).1
      = alter (User.push_tripsCreated (length (posts db))) uid (users db) ∧
    chats (createPost now db uid b).1 = chats db ∧
    Post.creator post = uid ∧ Post.participants post = [uid] ∧
    Post.currentParticipants post = 1%Z ∧ Post.status post = active ∧
    Post.comments post = [] ∧ Post.travelDate post = d ∧
    Post.title post = trim (PostBody.title b) ∧
    Post.maxParticipants post = PostBody.maxParticipants b ∧
    (2 ≤ Post.maxParticipants post ≤ 10)%Z.
Proof.
  unfold createPost, getPost, findById, notFuture.
  destruct (createErrors b) eqn:Herr; [done|].
  destruct (DateText.parsed (PostBody.travelDate b)) as [d'|] eqn:Hparsed.
  - destruct (Z.leb_spec d' now) as [Hle|Hlt]; [done|].
    destruct (DateText.cast (PostBody.travelDate b)) as [d|]; [|done].
    destruct (negb (Post.validate _)); [done|]. simpl.
    intros _. eexists d, _. rewrite list_lookup_middle by done.
    unfold createErrors in Herr. apply negb_false_iff in Herr.
    repeat (apply andb_prop in Herr as [Herr ?]).
    split; [done|]. split; [done|].
    split; [by intros ? [= <-]|].
    repeat split; try done; simpl; lia.
  - destruct (DateText.cast (PostBody.travelDate b)) as [d|]; [|done].
    destruct (negb (Post.validate _)); [done|]. simpl.
    intros _. eexists d, _. rewrite list_lookup_middle by done.
    unfold createErrors in Herr. apply negb_false_iff in Herr.
    repeat (apply andb_prop in Herr as [Herr ?]).
    split; [done|]. split; [done|]. split; [done|].
    repeat split; try done; simpl; lia.
Qed.

Lemma createPost_created_witness :
  ∃ post,
    posts (createPost 5 (initial demoUsers) "u1" goaTrip).1 = [post] ∧
    Post.participants post = ["u1"] ∧ Post.status post = active.
Proof.
  destruct (createPost_created 5 (initial demoUsers) "u1" goaTrip)
    as (d & post & _ & _ & _ & _ & Hposts & _ & _ & _ & _ & Hps & _ & Hst & _).
  - vm_compute. reflexivity.
  - exists post. split; [exact Hposts|]. split; [exact Hps|exact Hst].
Defined.

(** For a text that passes the validator, is an Invalid Date for
    JavaScript and is cast to a date before the server's (a text in
    the basic format that the cast reads as a number of milliseconds),
    the creation is answered 201 and stores a date that lies before
    the server's date. *)
Example createPost_unparsed_date :
  code (createPost 1700000000000 (initial demoUsers) "u1" basicDateTrip).2
    = 201 ∧
  Post.travelDate <$>
    posts (createPost 1700000000000 (initial demoUsers) "u1"
             basicDateTrip).1 !! 0
  = Some 20300101%Z.
Proof. split; vm_compute; reflexivity. Qed.

Lemma blank_trim (s : string) : blank s = true → trim s = EmptyString.
Proof.
  intros Hb. unfold trim.
  assert (ltrim s = EmptyString) as ->; [|done].
  induction s as [|c s IH]; [done|]. simpl in *.
  apply andb_prop in Hb as [-> Hb]. by apply IH.
Qed.

(** X3. What AddComment rejects, and in which order.  A text that is
    blank, or whose trimmed form has more than 500 characters, is
    answered 400 whether or not the trip exists; an acceptable text for
    an unknown trip is answered 404.  Nothing is written. *)
Theorem addComment_rejections now db uid id text :
  (blank text = true ∨ 500 < String.length (trim text) →
   addComment now db uid id text = (db, mkResponse 400 Errors)) ∧
  (1 ≤ String.length (trim text) ≤ 500 → posts db !! id = None →
   addComment now db uid id text = (db, reply 404 "Post not found")).
Proof.
  unfold addComment, findById, isLength. split.
  - intros [Hb|Hlong].
    + by rewrite (blank_trim _ Hb).
    + rewrite (proj2 (Nat.leb_gt _ _) Hlong). by rewrite andb_false_r.
  - intros [Hlo Hhi] ->.
    by rewrite (proj2 (Nat.leb_le _ _) Hlo), (proj2 (Nat.leb_le _ _) Hhi).
Qed.

Lemma addComment_rejections_witness :
  addComment 7 (demoDb (demoTrip 4 1 ["u1"] active)) "u2" 3 "   "
  = (demoDb (demoTrip 4 1 ["u1"] active), mkResponse 400 Errors).
Proof.
  apply (addComment_rejections 7 (demoDb (demoTrip 4 1 ["u1"] active))
           "u2" 3 "   ").
  left. reflexivity.
Defined.

(** X4. Leaving right after joining undoes the join: when a join is
    answered 200, the same user's leave is answered 200 as well and the
    trip collection is again what it was before the join, with the
    roster, the counter and the status of the trip restored. *)
Theorem join_then_leave db uid id :
  code (join db uid id).2 = 200 →
  (leave (join db uid id).1 uid id).2
    = reply 200 "Successfully left the trip" ∧
  posts (leave (join db uid id).1 uid id).1 = posts db.
Proof.
  unfold join at 1. unfold findById.
  destruct (posts db !! id) as [post|] eqn:Hpost; [|done].
  destruct (bool_decide (Post.status post = active)) eqn:Hst; [|done].
  apply bool_decide_eq_true in Hst.
  destruct (String.eqb (Post.creator post) uid) eqn:Hcr; [done|].
  destruct (bool_decide (uid ∈ Post.participants post)) eqn:Hin; [done|].
  apply bool_decide_eq_false in Hin.
  destruct (Z.leb_spec (Post.maxParticipants post)
              (Post.currentParticipants post)) as [Hfull|Hroom]; [done|].
  intros _. simpl.
  pose proof (lookup_lt_Some _ _ _ Hpost) as Hlt.
  assert (∀ post3,
            Post.creator post3 = Post.creator post →
            Post.participants post3 = Post.participants post ++ [uid] →
            (leave
               (set_users
                  (findByIdAndUpdate (User.push_tripsJoined id) uid (users db))
                  (set_posts (save (posts db) id post3) db)) uid id).2
              = reply 200 "Successfully left the trip" ∧
            posts
              (leave
                 (set_users
                    (findByIdAndUpdate (User.push_tripsJoined id) uid
                       (users db))
                    (set_posts (save (posts db) id post3) db)) uid id).1
              = <[id :=
                   (if bool_decide (Post.status post3 = full)
                    then Post.set_status active else λ p, p)
                     (Post.set_currentParticipants
                        (Post.currentParticipants post3 - 1)
                        (Post.set_participants (Post.participants post)
                           post3))]> (posts db)) as Hleave.
  { intros post3 Hc Hps. unfold leave, findById, save. simpl.
    rewrite list_lookup_insert_eq by done. rewrite Hc, Hcr, Hps. simpl.
    rewrite bool_decide_eq_true_2 by set_solver. simpl.
    rewrite filter_app, filter_absent by done.
    rewrite filter_cons_False by tauto. rewrite filter_nil, app_nil_r.
    rewrite list_insert_insert_eq.
    split; [done|]. by destruct (bool_decide (Post.status post3 = full)). }
  unfold join, findById. rewrite Hpost, Hst. simpl.
  rewrite Hcr, (bool_decide_eq_false_2 _ Hin). simpl.
  rewrite (proj2 (Z.leb_gt _ _) Hroom). simpl.
  edestruct Hleave as [-> ->]; [| |split; [done|]].
  - by destruct (Post.maxParticipants post <=? _)%Z.
  - by destruct (Post.maxParticipants post <=? _)%Z.
  - apply list_insert_id. rewrite Hpost. f_equal.
    destruct post as [? ? ? ? ? ? mx cp ? ? ? st ? ? ?]. simpl in *.
    subst st.
    destruct (mx <=? cp + 1)%Z; simpl;
      try (rewrite bool_decide_eq_true_2 by done);
      try (rewrite bool_decide_eq_false_2 by done);
      unfold Post.set_status, Post.set_currentParticipants,
        Post.set_participants;
      simpl; f_equal; lia.
Qed.

Lemma join_then_leave_witness :
  posts (leave (join (demoDb (demoTrip 2 1 ["u1"] active)) "u2" 0).1 "u2" 0).1
  = posts (demoDb (demoTrip 2 1 ["u1"] active)).
Proof.
  apply (proj2 (join_then_leave (demoDb (demoTrip 2 1 ["u1"] active)) "u2" 0
                  eq_refl)).
Defined.
End Trips.

(** ** Trips: invariants of the states the server reaches *)

Section TripInvariants.
Implicit Types (db : Db) (uid : UserId) (id : nat) (post : Post.t).

Lemma same_entry_refl post : same_entry post post.
Proof. by repeat split. Qed.

Lemma handle_trip_step db r : trip_step db (handle db r).1.
Proof.
  pose proof (chat_routes_posts db r) as Hchat.
  destruct r; simpl in *.
  - unfold createPost.
    destruct (createErrors b); [by apply step_none|].
    destruct (notFuture now (PostBody.travelDate b)); [by apply step_none|].
    destruct (DateText.cast (PostBody.travelDate b)) as [d|];
      [|by apply step_none].
    destruct (Post.validate _) eqn:Hv; simpl; [|by apply step_none].
    match type of Hv with
    | Post.validate ?p = _ => by apply (step_create _ _ uid p)
    end.
  - unfold join, findById.
    destruct (posts db !! id) as [post|] eqn:Hpost; [|by apply step_none].
    destruct (bool_decide (Post.status post = active)) eqn:Hst;
      [|by apply step_none].
    apply bool_decide_eq_true in Hst.
    destruct (String.eqb_spec (Post.creator post) uid) as [Hcr|Hcr];
      [by apply step_none|].
    destruct (bool_decide (uid ∈ Post.participants post)) eqn:Hin;
      [by apply step_none|].
    apply bool_decide_eq_false in Hin.
    destruct (Z.leb_spec (Post.maxParticipants post)
                (Post.currentParticipants post)) as [Hfull|Hroom];
      [by apply step_none|].
    simpl.
    match goal with
    | |- trip_step _ (set_users _ (set_posts (save _ _ ?p) _)) =>
        apply (step_join _ _ uid id post p); try done
    end;
      destruct (Post.maxParticipants post <=? _)%Z; simpl; try done;
      apply same_entry_refl.
  - unfold leave, findById.
    destruct (posts db !! id) as [post|] eqn:Hpost; [|by apply step_none].
    destruct (String.eqb_spec (Post.creator post) uid) as [Hcr|Hcr];
      [by apply step_none|].
    destruct (bool_decide (uid ∈ Post.participants post)) eqn:Hin;
      [|by apply step_none].
    apply bool_decide_eq_true in Hin.
    simpl.
    match goal with
    | |- trip_step _ (set_users _ (set_posts (save _ _ ?p) _)) =>
        apply (step_leave _ _ uid id post p); try done
    end;
      destruct (bool_decide (Post.status post = full)); simpl; try done;
      apply same_entry_refl.
  - unfold addComment, findById.
    destruct (negb (isLength 1 (Some 500) (trim text)));
      [by apply step_none|].
    destruct (posts db !! id) as [post|] eqn:Hpost; [|by apply step_none].
    destruct (Post.validateComment _) eqn:Hv; simpl; [|by apply step_none].
    assert (trip_step db
              (set_posts
                 (save (posts db) id
                    (Post.set_comments
                       (Post.comments post ++ [Comment.mk uid (trim text) now])
                       post)) db)) as Hstep.
    { match goal with
      | |- trip_step _ (set_posts (save _ _ ?p) _) =>
          apply (step_comment _ _ id post p (Comment.mk uid (trim text) now));
            try done
      end. }
    by case_match.
  - by apply step_none.
  - apply step_none; [done|].
    unfold getOrCreateChat. repeat case_match; simplify_eq/=; done.
  - apply step_none; [done|].
    unfold sendMessage. repeat case_match; simplify_eq/=; done.
  - apply step_none; [done|].
    unfold markRead. repeat case_match; simplify_eq/=; done.
Qed.
Lemma step_capacity db db' :
  trip_step db db' →
  Forall roster_ok (posts db) → Forall capacity_ok (posts db) →
  Forall capacity_ok (posts db').
Proof.
  intros Hstep Hrost Hcap.
  destruct Hstep as [Hp _|uid post ? ? Hcp Hst ? Hv Hp _
                    |uid id post post' Hpost Hst ? ? Hroom Hsame ? ? Hcp' Hst' Hp _
                    |uid id post post' Hpost ? ? Hsame ? ? Hcp' Hst' Hp _
                    |id post post' c Hpost ? Hsame ? ? Hcp' Hst' Hp _];
    rewrite Hp; clear Hp.
  - done.
  - apply Forall_app. split; [done|]. apply Forall_singleton. left.
    split; [done|]. rewrite Hcp. unfold Post.validate in Hv.
    repeat (apply andb_prop in Hv as [Hv ?]). lia.
  - apply Forall_insert; [done|]. destruct Hsame as (_&_&_&_&_&_&Hmax&_).
    unfold capacity_ok. rewrite Hst', Hcp', Hmax.
    destruct (Z.leb_spec (Post.maxParticipants post)
                (Post.currentParticipants post + 1)); [right|left];
      split; [done|lia|done|lia].
  - apply Forall_insert; [done|]. destruct Hsame as (_&_&_&_&_&_&Hmax&_).
    pose proof (Forall_lookup_1 _ _ _ _ Hrost Hpost) as (_ & _ & Hle & _).
    pose proof (Forall_lookup_1 _ _ _ _ Hcap Hpost) as [[Ha Hlt]|[Hf Heq]].
    + left. rewrite Hst', Hcp', Hmax, Ha. simpl. split; [done|lia].
    + left. rewrite Hst', Hcp', Hmax, Hf. simpl. split; [done|lia].
  - apply Forall_insert; [done|]. destruct Hsame as (_&_&_&_&_&_&Hmax&_).
    pose proof (Forall_lookup_1 _ _ _ _ Hcap Hpost) as Hc.
    unfold capacity_ok. by rewrite Hst', Hcp', Hmax.
Qed.

(** X5. The status follows the capacity.  Starting from trips that keep
    the roster invariant and whose status follows the capacity (no trip
    at all, for one), every trip after any sequence of requests is
    either active or full, and it is full exactly when its participants
    are as many as [maxParticipants]: the handlers never produce a
    completed or cancelled trip, nor an active trip without room. *)
Theorem status_follows_capacity db (rs : list Request) id post :
  Forall roster_ok (posts db) → Forall capacity_ok (posts db) →
  posts (run db rs) !! id = Some post →
  (Post.status post = active ∨ Post.status post = full) ∧
  (Post.status post = full ↔
   Z.of_nat (length (Post.participants post)) = Post.maxParticipants post).
Proof.
  intros Hrost Hcap Hpost.
  assert (Forall roster_ok (posts (run db rs)) ∧
          Forall capacity_ok (posts (run db rs))) as [Hr Hc].
  { apply (run_invariant
             (λ d, Forall roster_ok (posts d) ∧ Forall capacity_ok (posts d)));
      [|done].
    intros d r [??]. split; [by apply handle_roster|].
    by apply (step_capacity d); [apply handle_trip_step|..]. }
  pose proof (Forall_lookup_1 _ _ _ _ Hr Hpost) as (_ & Hlen & _).
  pose proof (Forall_lookup_1 _ _ _ _ Hc Hpost) as [[Ha Hlt]|[Hf Heq]].
  - split; [by left|]. rewrite Ha, Hlen. split; [done|lia].
  - split; [by right|]. by rewrite Hf, Hlen.
Qed.

Lemma status_follows_capacity_witness :
  ∃ post,
    posts (run (initial ∅) (take 4 scenario)) !! 0 = Some post ∧
    Post.status post = full ∧
    Z.of_nat (length (Post.participants post)) = Post.maxParticipants post.
Proof.
  eexists. split; [vm_compute; reflexivity|].
  split; [reflexivity|].
  eapply (status_follows_capacity (initial ∅) (take 4 scenario) 0).
  - constructor.
  - constructor.
  - vm_compute. reflexivity.
  - reflexivity.
Defined.

Lemma validate_same_entry post post' :
  same_entry post post' → Post.comments post' = Post.comments post →
  Post.validate post' = Post.validate post.
Proof.
  intros (Ht & Hd & Hf & Hto & _ & Htt & Hm & _ & Htm & He & Hn) Hc.
  unfold Post.validate. by rewrite Ht, Hd, Hf, Hto, Htt, Hm, Htm, He, Hn, Hc.
Qed.

Lemma step_valid db db' :
  trip_step db db' →
  Forall (λ p, Post.validate p = true) (posts db) →
  Forall (λ p, Post.validate p = true) (posts db').
Proof.
  intros Hstep Hval.
  destruct Hstep as [Hp _|uid post ? ? ? ? ? Hv Hp _
                    |uid id post post' Hpost ? ? ? ? Hsame Hc ? ? ? Hp _
                    |uid id post post' Hpost ? ? Hsame Hc ? ? ? Hp _
                    |id post post' c Hpost Hvc Hsame Hc ? ? ? Hp _];
    rewrite Hp; clear Hp.
  - done.
  - apply Forall_app. split; [done|]. by apply Forall_singleton.
  - apply Forall_insert; [done|]. rewrite (validate_same_entry post) by done.
    apply (Forall_lookup_1 _ _ _ _ Hval Hpost).
  - apply Forall_insert; [done|]. rewrite (validate_same_entry post) by done.
    apply (Forall_lookup_1 _ _ _ _ Hval Hpost).
  - apply Forall_insert; [done|].
    pose proof (Forall_lookup_1 _ _ _ _ Hval Hpost) as Hv. simpl in Hv.
    destruct Hsame as (Ht & Hd & Hf & Hto & _ & Htt & Hm & _ & Htm & He & Hn).
    unfold Post.validate in *.
    rewrite Ht, Hd, Hf, Hto, Htt, Hm, Htm, He, Hn, Hc.
    apply andb_prop in Hv as [-> Hcs]. simpl.
    rewrite forallb_app, Hcs. simpl. by rewrite Hvc.
Qed.

(** X6. Stored trips always satisfy the schema.  Starting from trips
    that pass the validators of [postSchema] (no trip at all, for one),
    every trip after any sequence of requests passes them: among
    others, its capacity is between 2 and 10, its title has at most 100
    characters, and each of its comments has between 1 and 500
    characters. *)
Theorem stored_trips_valid db (rs : list Request) id post :
  Forall (λ p, Post.validate p = true) (posts db) →
  posts (run db rs) !! id = Some post →
  Post.validate post = true ∧
  (2 ≤ Post.maxParticipants post ≤ 10)%Z ∧
  String.length (Post.title post) ≤ 100 ∧
  Forall (λ c, 1 ≤ String.length (Comment.text c) ≤ 500) (Post.comments post).
Proof.
  intros Hval Hpost.
  assert (Post.validate post = true) as Hv.
  { apply (Forall_lookup_1 (λ p, Post.validate p = true) _ _ _)
      with (2 := Hpost).
    apply (run_invariant (λ d, Forall (λ p, Post.validate p = true) (posts d)));
      [|done].
    intros d r ?. by apply (step_valid d); [apply handle_trip_step|]. }
  split; [done|]. unfold Post.validate in Hv.
  repeat (apply andb_prop in Hv as [Hv ?]).
  split; [lia|]. split; [by apply Nat.leb_le|].
  apply Forall_forall. intros c Hc%list_elem_of_In.
  match goal with
  | H : forallb _ _ = true |- _ =>
      pose proof (proj1 (forallb_forall _ _) H c Hc) as Hvc
  end.
  unfold Post.validateComment in Hvc. apply andb_prop in Hvc as [Hne Hle].
  apply Nat.leb_le in Hle. split; [|done].
  destruct (Comment.text c); simpl in *; [done|lia].
Qed.

Lemma stored_trips_valid_witness :
  Forall (λ c, 1 ≤ String.length (Comment.text c) ≤ 500)
    (Post.comments
       (Post.mk "Weekend in Goa" "Two days on the beach" "Pune" "Goa" 100
          "08:00" 4 1 "u1" ["u1"] [Comment.mk "u2" "count me in" 6] active
          "car" 0 EmptyString)).
Proof.
  apply (stored_trips_valid (initial ∅)
           [CreateTrip 5 "u1" goaTrip; AddComment 6 "u2" 0 " count me in "] 0).
  - constructor.
  - vm_compute. reflexivity.
Defined.

Lemma step_extends db db' :
  trip_step db db' →
  ∀ id post, posts db !! id = Some post →
    ∃ post', posts db' !! id = Some post' ∧ trip_extends post post'.
Proof.
  assert (∀ post, trip_extends post post) as Hrefl by (by repeat split).
  assert (∀ post post' cs,
            same_entry post post' →
            Post.comments post' = Post.comments post ++ cs →
            trip_extends post post') as Hext.
  { intros post post' cs (?&?&?&?&?&?&?&?&?&?&?) Hc.
    repeat split; try done. rewrite Hc. by apply prefix_app_r. }
  intros Hstep j q Hq.
  pose proof (lookup_lt_Some _ _ _ Hq) as Hlt.
  destruct Hstep as [Hp _|uid post ? ? ? ? ? Hv Hp _
                    |uid id post post' Hpost ? ? ? ? Hsame Hc ? ? ? Hp _
                    |uid id post post' Hpost ? ? Hsame Hc ? ? ? Hp _
                    |id post post' c Hpost Hvc Hsame Hc ? ? ? Hp _];
    rewrite Hp; clear Hp.
  - eauto.
  - exists q. split; [by apply lookup_app_l_Some|done].
  - destruct (decide (id = j)) as [->|Hne].
    + rewrite list_lookup_insert_eq by done. simplify_eq.
      eexists. split; [done|]. apply (Hext _ _ []); [done|].
      by rewrite app_nil_r.
    + rewrite list_lookup_insert_ne by done. eauto.
  - destruct (decide (id = j)) as [->|Hne].
    + rewrite list_lookup_insert_eq by done. simplify_eq.
      eexists. split; [done|]. apply (Hext _ _ []); [done|].
      by rewrite app_nil_r.
    + rewrite list_lookup_insert_ne by done. eauto.
  - destruct (decide (id = j)) as [->|Hne].
    + rewrite list_lookup_insert_eq by done. simplify_eq.
      eexists. split; [done|]. by apply (Hext _ _ [c]).
    + rewrite list_lookup_insert_ne by done. eauto.
Qed.

(** X7. Trips are never deleted or rewritten.  Whatever requests are
    served, a stored trip is still stored under the same id, what its
    creator entered (title, description, cities, date and time,
    capacity, transport, cost, notes) and its creator are unchanged,
    and its comments are still there, in order, before any newer
    ones. *)
Theorem trips_persist db (rs : list Request) id post :
  posts db !! id = Some post →
  ∃ post', posts (run db rs) !! id = Some post' ∧ trip_extends post post'.
Proof.
  revert id post.
  apply (run_relation
           (λ d d', ∀ id post, posts d !! id = Some post →
              ∃ post', posts d' !! id = Some post' ∧ trip_extends post post')).
  - intros d id post Hpost. exists post. split; [done|]. by repeat split.
  - intros d1 d2 d3 H12 H23 id post Hpost.
    destruct (H12 _ _ Hpost) as (p2 & Hp2 & E12).
    destruct (H23 _ _ Hp2) as (p3 & Hp3 & E23).
    exists p3. split; [done|].
    destruct E12 as (?&?&?&?&?&?&?&?&?&?&?&?).
    destruct E23 as (?&?&?&?&?&?&?&?&?&?&?&?).
    repeat split; try congruence. by etransitivity.
  - intros d r. apply step_extends, handle_trip_step.
Qed.

Lemma trips_persist_witness :
  ∃ post',
    posts (run (demoDb (demoTrip 4 1 ["u1"] active))
             [Join "u2" 0; AddComment 6 "u2" 0 "hello"; Leave "u2" 0]) !! 0
      = Some post' ∧
    trip_extends (demoTrip 4 1 ["u1"] active) post'.
Proof.
  apply (trips_persist (demoDb (demoTrip 4 1 ["u1"] active))
           [Join "u2" 0; AddComment 6 "u2" 0 "hello"; Leave "u2" 0] 0).
  reflexivity.
Defined.
Lemma insert_view (ps : list Post.t) id post post' j (Q : Post.t → Prop) :
  ps !! id = Some post →
  (∃ p, <[id := post']> ps !! j = Some p ∧ Q p) ↔
  (j = id ∧ Q post') ∨ (j ≠ id ∧ ∃ p, ps !! j = Some p ∧ Q p).
Proof.
  intros Hpost. pose proof (lookup_lt_Some _ _ _ Hpost) as Hlt.
  destruct (decide (j = id)) as [->|Hne].
  - rewrite list_lookup_insert_eq by done. naive_solver.
  - rewrite list_lookup_insert_ne by done. naive_solver.
Qed.

Lemma step_mirror db db' :
  trip_step db db' → lists_mirror db → lists_mirror db'.
Proof.
  intros Hstep Hm u U' HU'.
  destruct Hstep as [Hp Hu|uid post Hcr Hps ? ? ? Hv Hp Hu
                    |uid id post post' Hpost ? Hcr Hnin ? Hsame Hc Hps ? ? Hp Hu
                    |uid id post post' Hpost Hcr Hin Hsame Hc Hps ? ? Hp Hu
                    |id post post' c Hpost Hvc Hsame Hc Hps ? ? Hp Hu];
    rewrite Hu in HU'; rewrite Hp; clear Hp Hu.
  - by apply Hm.
  - assert (∀ p, posts db !! length (posts db) = Some p → False) as Hfresh.
    { intros p Hp'%lookup_lt_Some. lia. }
    apply lookup_alter_Some in HU' as [(<- & U & HU & ->)|(Hne & HU)];
      destruct (Hm _ _ HU) as (Hnc & Hnj & Hc & Hj); simpl.
    + split; [|split; [done|split]].
      * apply NoDup_app. split; [done|]. split; [|apply NoDup_singleton].
        intros x Hx ->%list_elem_of_singleton.
        apply Hc in Hx as (p & Hp' & _). eauto.
      * intros j. rewrite elem_of_app, list_elem_of_singleton, Hc.
        setoid_rewrite lookup_snoc_Some. split.
        -- intros [(p & Hp' & ?)| ->]; [|by eauto].
           exists p. split; [|done]. left. eauto using lookup_lt_Some.
        -- intros (p & [[? Hp']|[-> <-]] & ?); eauto.
      * intros j. rewrite Hj. setoid_rewrite lookup_snoc_Some. split.
        -- intros (p & Hp' & ?). exists p. split; [|done].
           left. eauto using lookup_lt_Some.
        -- intros (p & [[? Hp']|[-> <-]] & Hin & Hcne); [by eauto|].
           by destruct Hcne.
    + split; [done|split; [done|split]].
      * intros j. rewrite Hc. setoid_rewrite lookup_snoc_Some. split.
        -- intros (p & Hp' & ?). exists p. split; [|done].
           left. eauto using lookup_lt_Some.
        -- intros (p & [[? Hp']|[-> <-]] & ?); [by eauto|]. congruence.
      * intros j. rewrite Hj. setoid_rewrite lookup_snoc_Some. split.
        -- intros (p & Hp' & ?). exists p. split; [|done].
           left. eauto using lookup_lt_Some.
        -- intros (p & [[? Hp']|[-> <-]] & Hin & Hcne); [by eauto|].
           rewrite Hps in Hin. apply list_elem_of_singleton in Hin.
           congruence.
  - destruct Hsame as (_&_&_&_&_&_&_&Hcr'&_).
    apply lookup_alter_Some in HU' as [(<- & U & HU & ->)|(Hne & HU)];
      destruct (Hm _ _ HU) as (Hnc & Hnj & Hcm & Hj); simpl.
    + split; [done|split; [|split]].
      * apply NoDup_app. split; [done|]. split; [|apply NoDup_singleton].
        intros x Hx ->%list_elem_of_singleton.
        apply Hj in Hx as (p & Hp' & ? & _). naive_solver.
      * intros j. rewrite Hcm, (insert_view _ _ _ _ _ _ Hpost), Hcr'.
        destruct (decide (j = id)); naive_solver.
      * intros j.
        rewrite elem_of_app, list_elem_of_singleton, Hj,
          (insert_view _ _ _ _ _ _ Hpost), Hcr', Hps.
        destruct (decide (j = id)); set_solver.
    + split; [done|split; [done|split]].
      * intros j. rewrite Hcm, (insert_view _ _ _ _ _ _ Hpost), Hcr'.
        destruct (decide (j = id)); naive_solver.
      * intros j. rewrite Hj, (insert_view _ _ _ _ _ _ Hpost), Hcr', Hps.
        destruct (decide (j = id)); set_solver.
  - destruct Hsame as (_&_&_&_&_&_&_&Hcr'&_).
    apply lookup_alter_Some in HU' as [(<- & U & HU & ->)|(Hne & HU)];
      destruct (Hm _ _ HU) as (Hnc & Hnj & Hcm & Hj); simpl.
    + split; [done|split; [by apply NoDup_filter|split]].
      * intros j. rewrite Hcm, (insert_view _ _ _ _ _ _ Hpost), Hcr'.
        destruct (decide (j = id)); naive_solver.
      * intros j.
        rewrite list_elem_of_filter, Hj, (insert_view _ _ _ _ _ _ Hpost),
          Hcr', Hps, list_elem_of_filter.
        destruct (decide (j = id)); naive_solver.
    + split; [done|split; [done|split]].
      * intros j. rewrite Hcm, (insert_view _ _ _ _ _ _ Hpost), Hcr'.
        destruct (decide (j = id)); naive_solver.
      * intros j.
        rewrite Hj, (insert_view _ _ _ _ _ _ Hpost), Hcr', Hps,
          list_elem_of_filter.
        destruct (decide (j = id)); naive_solver.
  - destruct Hsame as (_&_&_&_&_&_&_&Hcr'&_).
    destruct (Hm _ _ HU') as (Hnc & Hnj & Hcm & Hj).
    split; [done|split; [done|split]].
    + intros j. rewrite Hcm, (insert_view _ _ _ _ _ _ Hpost), Hcr'.
      destruct (decide (j = id)); naive_solver.
    + intros j. rewrite Hj, (insert_view _ _ _ _ _ _ Hpost), Hcr', Hps.
      destruct (decide (j = id)); naive_solver.
Qed.

(** X8. The user documents mirror the rosters.  Starting from a
    database where they do (for one, no trip and empty lists), after
    any sequence of requests every user document of the directory lists
    in [tripsCreated] exactly the trips the user created and in
    [tripsJoined] exactly the trips of other users in which the user
    participates, each of them once. *)
Theorem trip_lists_mirror_rosters db (rs : list Request) :
  lists_mirror db → lists_mirror (run db rs).
Proof.
  apply (run_invariant lists_mirror).
  intros d r. apply step_mirror, handle_trip_step.
Qed.

Lemma trip_lists_mirror_rosters_witness :
  lists_mirror (run (initial demoUsers) scenario).
Proof.
  apply (trip_lists_mirror_rosters (initial demoUsers) scenario).
  intros u U HU. simpl in HU. unfold demoUsers in HU.
  assert (U = User.mk [] []) as ->.
  { apply lookup_insert_Some in HU as [[_ <-]|[_ HU]]; [done|].
    apply lookup_insert_Some in HU as [[_ <-]|[_ HU]]; [done|].
    by rewrite lookup_empty in HU. }
  simpl. split; [constructor|]. split; [constructor|].
  split; intros id; (split; [by intros ?%elem_of_nil|]);
    by intros (post & Hpost & _).
Defined.
End TripInvariants.

(** ** Conversations: history, access and unread counts *)

Section ChatInvariants.
Implicit Types (db : Db) (uid : UserId) (chat : Chat.t).

Lemma handle_chat_step db r : chat_step db (handle db r).1.
Proof.
  destruct r; simpl.
  - apply cstep_none. unfold createPost.
    repeat case_match; simplify_eq/=; done.
  - apply cstep_none. unfold join. repeat case_match; simplify_eq/=; done.
  - apply cstep_none. unfold leave. repeat case_match; simplify_eq/=; done.
  - apply cstep_none. unfold addComment.
    repeat case_match; simplify_eq/=; done.
  - by apply cstep_none.
  - unfold getOrCreateChat.
    destruct (users db !! userId); [|by apply cstep_none].
    destruct (findOne _ _) as [[i c]|] eqn:Hf; [by apply cstep_none|].
    simpl. unfold findById. rewrite list_lookup_middle by done.
    by apply (cstep_create _ _ t0 uid userId postId).
  - unfold sendMessage, findById, isLength.
    destruct (1 <=? String.length (trim content)) eqn:Hlo;
      [|by apply cstep_none].
    destruct (String.length (trim content) <=? 1000) eqn:Hhi;
      [|by apply cstep_none].
    apply Nat.leb_le in Hlo, Hhi. simpl.
    destruct (chats db !! chatId) as [chat|] eqn:Hchat;
      [|by apply cstep_none].
    destruct (bool_decide (uid ∈ Chat.participants chat)) eqn:Hin;
      [|by apply cstep_none].
    apply bool_decide_eq_true in Hin. simpl. unfold save.
    rewrite list_lookup_insert_eq by eauto using lookup_lt_Some.
    by apply (cstep_send _ _ t1 t2 uid content chatId chat).
  - unfold markRead, findById.
    destruct (chats db !! chatId) as [chat|] eqn:Hchat;
      [|by apply cstep_none].
    destruct (bool_decide (uid ∈ Chat.participants chat)) eqn:Hin;
      [|by apply cstep_none].
    apply bool_decide_eq_true in Hin. simpl.
    by apply (cstep_mark _ _ uid chatId chat).
Qed.

Lemma message_extends_refl (m : Message.t) : message_extends m m.
Proof. by repeat split. Qed.

Lemma message_extends_trans (m1 m2 m3 : Message.t) :
  message_extends m1 m2 → message_extends m2 m3 → message_extends m1 m3.
Proof.
  intros (?&?&?&?) (?&?&?&?). repeat split; try congruence. auto.
Qed.

Lemma message_extends_mark uid (m : Message.t) :
  message_extends m (markMessage uid m).
Proof.
  unfold markMessage. destruct (negb _); by repeat split.
Qed.

Lemma chat_extends_refl chat : chat_extends chat chat.
Proof.
  split; [done|]. split; [done|]. exists (Chat.messages chat), [].
  split; [by rewrite app_nil_r|].
  apply Forall_Forall2_diag, Forall_forall. intros m _.
  apply message_extends_refl.
Qed.

Lemma chat_extends_trans c1 c2 c3 :
  chat_extends c1 c2 → chat_extends c2 c3 → chat_extends c1 c3.
Proof.
  intros (Hp1 & Hr1 & old1 & later1 & Hm1 & H1)
         (Hp2 & Hr2 & old2 & later2 & Hm2 & H2).
  split; [congruence|]. split; [congruence|].
  rewrite Hm1 in H2.
  apply Forall2_app_inv_l in H2 as (k1 & k2 & Hk1 & Hk2 & ->).
  exists k1, (k2 ++ later2). split; [by rewrite Hm2, <- app_assoc|].
  eapply Forall2_trans; [|done..]. apply message_extends_trans.
Qed.

Lemma step_chat_extends db db' :
  chat_step db db' →
  ∀ i chat, chats db !! i = Some chat →
    ∃ chat', chats db' !! i = Some chat' ∧ chat_extends chat chat'.
Proof.
  intros Hstep i c Hc. pose proof (lookup_lt_Some _ _ _ Hc) as Hlt.
  destruct Hstep as [Hcs|t0 uid userId postId _ Hcs
                    |t1 t2 uid content id chat Hchat _ _ Hcs
                    |uid id chat Hchat _ Hcs]; rewrite Hcs; clear Hcs.
  - exists c. split; [done|apply chat_extends_refl].
  - exists c. split; [by apply lookup_app_l_Some|apply chat_extends_refl].
  - destruct (decide (id = i)) as [->|Hne].
    + rewrite list_lookup_insert_eq by done. simplify_eq.
      eexists. split; [done|]. split; [done|]. split; [done|]. simpl.
      eexists _, _. split; [done|].
      apply Forall_Forall2_diag, Forall_forall. intros m _.
      apply message_extends_refl.
    + rewrite list_lookup_insert_ne by done.
      exists c. split; [done|apply chat_extends_refl].
  - destruct (decide (id = i)) as [->|Hne].
    + rewrite list_lookup_insert_eq by done. simplify_eq.
      eexists. split; [done|]. split; [done|]. split; [done|]. simpl.
      eexists _, []. split; [by rewrite app_nil_r|].
      apply Forall2_fmap_r, Forall_Forall2_diag, Forall_forall.
      intros m _. apply message_extends_mark.
    + rewrite list_lookup_insert_ne by done.
      exists c. split; [done|apply chat_extends_refl].
Qed.

(** X9. Conversations and their history are never deleted or
    rewritten.  Whatever requests are served, a stored conversation is
    still stored under the same id with the same participants and
    related trip; its messages are still there, at the same positions,
    with the same sender, content and timestamp, before any newer ones;
    and a message that was read is still read. *)
Theorem conversations_persist db (rs : list Request) i chat :
  chats db !! i = Some chat →
  ∃ chat', chats (run db rs) !! i = Some chat' ∧ chat_extends chat chat'.
Proof.
  revert i chat.
  apply (run_relation
           (λ d d', ∀ i chat, chats d !! i = Some chat →
              ∃ chat', chats d' !! i = Some chat' ∧ chat_extends chat chat')).
  - intros d i chat Hchat. exists chat. split; [done|apply chat_extends_refl].
  - intros d1 d2 d3 H12 H23 i chat Hchat.
    destruct (H12 _ _ Hchat) as (c2 & Hc2 & E12).
    destruct (H23 _ _ Hc2) as (c3 & Hc3 & E23).
    exists c3. split; [done|]. by apply (chat_extends_trans _ c2).
  - intros d r. apply step_chat_extends, handle_chat_step.
Qed.

Lemma conversations_persist_witness :
  ∃ chat',
    chats (run (chatDb (demoChat [Message.mk "u1" "hello" 5 false] 5))
             [AppendMessage 6 6 "u2" 0 "hi"; MarkRead "u2" 0]) !! 0
      = Some chat' ∧
    chat_extends (demoChat [Message.mk "u1" "hello" 5 false] 5) chat'.
Proof.
  apply (conversations_persist
           (chatDb (demoChat [Message.mk "u1" "hello" 5 false] 5))
           [AppendMessage 6 6 "u2" 0 "hi"; MarkRead "u2" 0] 0).
  reflexivity.
Defined.

Lemma step_chat_ok db db' :
  chat_step db db' → Forall chat_ok (chats db) → Forall chat_ok (chats db').
Proof.
  intros Hstep Hok.
  destruct Hstep as [Hcs|t0 uid userId postId _ Hcs
                    |t1 t2 uid content id chat Hchat Hin Hlen Hcs
                    |uid id chat Hchat _ Hcs]; rewrite Hcs; clear Hcs.
  - done.
  - apply Forall_app. split; [done|]. apply Forall_singleton. constructor.
  - apply Forall_insert; [done|].
    pose proof (Forall_lookup_1 _ _ _ _ Hok Hchat) as Hc.
    unfold chat_ok in *. simpl. apply Forall_app. split; [done|].
    apply Forall_singleton. done.
  - apply Forall_insert; [done|].
    pose proof (Forall_lookup_1 _ _ _ _ Hok Hchat) as Hc.
    unfold chat_ok in *. simpl. apply Forall_fmap.
    eapply Forall_impl; [exact Hc|]. intros m Hm. simpl.
    unfold markMessage. by destruct (negb _).
Qed.

(** X10. Only participants write into a conversation.  Starting from
    conversations in which every message was sent by a participant and
    has between 1 and 1000 characters (no conversation at all, for
    one), the same holds of every conversation after any sequence of
    requests. *)
Theorem senders_are_participants db (rs : list Request) i chat :
  Forall chat_ok (chats db) →
  chats (run db rs) !! i = Some chat →
  ∀ m, m ∈ Chat.messages chat →
    Message.sender m ∈ Chat.participants chat ∧
    1 ≤ String.length (Message.content m) ≤ 1000.
Proof.
  intros Hok Hchat.
  assert (Forall chat_ok (chats (run db rs))) as Hall.
  { apply (run_invariant (λ d, Forall chat_ok (chats d))); [|done].
    intros d r ?. by apply (step_chat_ok d); [apply handle_chat_step|]. }
  pose proof (Forall_lookup_1 _ _ _ _ Hall Hchat) as Hc.
  intros m Hm. by apply (proj1 (Forall_forall _ _) Hc).
Qed.

Lemma senders_are_participants_witness :
  Message.sender (Message.mk "u2" "hi" 6 false) ∈ ["u1"; "u2"] ∧
  1 ≤ String.length (Message.content (Message.mk "u2" "hi" 6 false)) ≤ 1000.
Proof.
  apply (senders_are_participants (initial demoUsers)
           [FindOrCreate 1 "u1" "u2" None; AppendMessage 6 6 "u2" 0 " hi ";
            AppendMessage 7 7 "u3" 0 "let me in"] 0
           (Chat.mk ["u1"; "u2"] None [Message.mk "u2" "hi" 6 false] 6)).
  - constructor.
  - vm_compute. reflexivity.
  - apply list_elem_of_singleton. reflexivity.
Defined.
(** X11. What the two writing chat requests reject, and in which order.
    AppendMessage answers 400 to a content that is blank or longer than
    1000 characters after trimming, whether or not the conversation
    exists; then 404 for an unknown conversation; then 403 to a user who
    is not a participant.  MarkRead answers 404 for an unknown
    conversation and 403 to a user who is not a participant.  Nothing
    is written in any of these cases. *)
Theorem chat_write_rejections t1 t2 db uid chatId content :
  (blank content = true ∨ 1000 < String.length (trim content) →
   sendMessage t1 t2 db uid chatId content = (db, mkResponse 400 Errors)) ∧
  (1 ≤ String.length (trim content) ≤ 1000 → chats db !! chatId = None →
   sendMessage t1 t2 db uid chatId content
   = (db, reply 404 "Chat not found")) ∧
  (chats db !! chatId = None →
   markRead db uid chatId = (db, reply 404 "Chat not found")) ∧
  (∀ chat, chats db !! chatId = Some chat → uid ∉ Chat.participants chat →
     (1 ≤ String.length (trim content) ≤ 1000 →
      sendMessage t1 t2 db uid chatId content
      = (db, reply 403 "You are not a participant in this chat")) ∧
     markRead db uid chatId
     = (db, reply 403 "You are not a participant in this chat")).
Proof.
  unfold sendMessage, markRead, findById, isLength.
  split; [|split; [|split]].
  - intros [Hb|Hlong].
    + by rewrite (blank_trim _ Hb).
    + rewrite (proj2 (Nat.leb_gt _ _) Hlong). by rewrite andb_false_r.
  - intros [Hlo Hhi] ->.
    by rewrite (proj2 (Nat.leb_le _ _) Hlo), (proj2 (Nat.leb_le _ _) Hhi).
  - by intros ->.
  - intros chat -> Hnin. rewrite bool_decide_eq_false_2 by done.
    split; [|done]. intros [Hlo Hhi].
    by rewrite (proj2 (Nat.leb_le _ _) Hlo), (proj2 (Nat.leb_le _ _) Hhi).
Qed.

Lemma chat_write_rejections_witness :
  sendMessage 6 6 (chatDb (demoChat [] 0)) "u3" 0 "let me in"
  = (chatDb (demoChat [] 0), reply 403 "You are not a participant in this chat")
  ∧ markRead (chatDb (demoChat [] 0)) "u3" 0
    = (chatDb (demoChat [] 0),
       reply 403 "You are not a participant in this chat").
Proof.
  destruct (chat_write_rejections 6 6 (chatDb (demoChat [] 0)) "u3" 0
              "let me in") as (_ & _ & _ & Hout).
  destruct (Hout (demoChat [] 0)) as [Hsend Hmark].
  - reflexivity.
  - intros [?|Hin]%elem_of_cons; [done|].
    apply elem_of_cons in Hin as [?|Hin]; [done|].
    by apply elem_of_nil in Hin.
  - split; [|exact Hmark]. apply Hsend.
    assert (String.length (trim "let me in") = 9) as ->
      by (vm_compute; reflexivity).
    lia.
Defined.

(** X12. What find-or-create answers.  An unknown counterpart is
    answered 404 without any write.  Otherwise the answer is a stored
    conversation that holds both the caller and the counterpart: either
    the first stored conversation holding both, returned as it is (the
    [postId] of the request is then ignored and nothing is written), or
    a new, empty conversation of the two behind the stored ones, with
    the [postId] as related trip. *)
Theorem getOrCreateChat_spec t0 db (uid userId : UserId) postId :
  (users db !! userId = None →
   getOrCreateChat t0 db uid userId postId
   = (db, reply 404 "User not found")) ∧
  (is_Some (users db !! userId) →
   ∃ i chat,
     (getOrCreateChat t0 db uid userId postId).2
       = mkResponse 200 (ChatDoc i chat) ∧
     chats (getOrCreateChat t0 db uid userId postId).1 !! i = Some chat ∧
     uid ∈ Chat.participants chat ∧ userId ∈ Chat.participants chat ∧
     ((chats db !! i = Some chat ∧
       (∀ j c, chats db !! j = Some c → j < i →
               ¬ (uid ∈ Chat.participants c ∧ userId ∈ Chat.participants c)) ∧
       (getOrCreateChat t0 db uid userId postId).1 = db) ∨
      ((∀ j c, chats db !! j = Some c →
               ¬ (uid ∈ Chat.participants c ∧ userId ∈ Chat.participants c)) ∧
       i = length (chats db) ∧
       chat = Chat.mk [uid; userId] postId [] t0 ∧
       chats (getOrCreateChat t0 db uid userId postId).1
       = chats db ++ [chat]))).
Proof.
  assert (∀ c, hasAll [uid; userId] c ↔
               uid ∈ Chat.participants c ∧ userId ∈ Chat.participants c)
    as Hall.
  { intros c. unfold hasAll. rewrite !Forall_cons, Forall_nil. tauto. }
  unfold getOrCreateChat. split; [by intros ->|].
  intros [U ->].
  destruct (findOne (hasAll [uid; userId]) (chats db)) as [[i chat]|] eqn:Hf.
  - apply list_find_Some in Hf as (Hi & [Hu Hv]%Hall & Hfirst).
    exists i, chat. simpl. split; [done|]. split; [done|].
    split; [done|]. split; [done|]. left. split; [done|]. split; [|done].
    intros j c Hj Hlt Hboth. by apply (Hfirst j c Hj Hlt), Hall.
  - apply list_find_None in Hf. simpl. unfold findById.
    rewrite list_lookup_middle by done. simpl.
    eexists _, _. split; [done|].
    rewrite list_lookup_middle by done. split; [done|]. simpl.
    split; [set_solver|]. split; [set_solver|]. right.
    split; [|done].
    intros j c Hj Hboth.
    by apply (Forall_lookup_1 _ _ _ _ Hf Hj), Hall.
Qed.

Lemma getOrCreateChat_spec_witness :
  ∃ i chat,
    (getOrCreateChat 9 (set_users demoUsers (chatDb (demoChat [] 0)))
       "u2" "u1" (Some 4)).2
      = mkResponse 200 (ChatDoc i chat) ∧
    "u2" ∈ Chat.participants chat ∧ "u1" ∈ Chat.participants chat.
Proof.
  destruct (getOrCreateChat_spec 9
              (set_users demoUsers (chatDb (demoChat [] 0))) "u2" "u1"
              (Some 4)) as [_ Hknown].
  destruct Hknown as (i & chat & Hres & _ & Hu & Hv & _).
  - exists (User.mk [] []). vm_compute. reflexivity.
  - by exists i, chat.
Defined.

Lemma unread_app uid (ms1 ms2 : list Message.t) :
  length (List.filter (unreadFor uid) (ms1 ++ ms2))
  = length (List.filter (unreadFor uid) ms1)
    + length (List.filter (unreadFor uid) ms2).
Proof. by rewrite List.filter_app, length_app. Qed.

(** X13. A sent message is unread for everybody but its sender.  When
    AppendMessage is answered 200, the unread count of the conversation
    grows by one for every user other than the sender and stays the
    same for the sender. *)
Theorem unread_after_send t1 t2 db uid chatId content chat :
  chats db !! chatId = Some chat →
  code (sendMessage t1 t2 db uid chatId content).2 = 200 →
  ∃ chat',
    chats (sendMessage t1 t2 db uid chatId content).1 !! chatId = Some chat' ∧
    unread uid chat' = unread uid chat ∧
    ∀ v, v ≠ uid → unread v chat' = S (unread v chat).
Proof.
  intros Hchat. pose proof (lookup_lt_Some _ _ _ Hchat) as Hlt.
  unfold sendMessage, findById. rewrite Hchat.
  destruct (negb (isLength _ _ _)); [done|].
  destruct (negb (bool_decide _)); [done|]. simpl. unfold save.
  rewrite list_lookup_insert_eq by done. simpl. intros _.
  rewrite list_lookup_insert_eq by done.
  eexists. split; [done|]. unfold unread. simpl.
  assert (∀ v, unreadFor v (Message.mk uid (trim content) t1 false)
               = negb (String.eqb uid v)) as Hnew.
  { intros v. unfold unreadFor. simpl. by rewrite andb_true_r. }
  setoid_rewrite unread_app. simpl. unfold Message.default_read.
  setoid_rewrite Hnew. split.
  - rewrite String.eqb_refl. simpl. lia.
  - intros v Hv.
    rewrite (proj2 (String.eqb_neq uid v)) by done. simpl. lia.
Qed.

Lemma unread_after_send_witness :
  ∃ chat',
    chats (sendMessage 6 6 (chatDb (demoChat [] 0)) "u1" 0 "hello").1 !! 0
      = Some chat' ∧
    unread "u1" chat' = 0 ∧ unread "u2" chat' = 1.
Proof.
  destruct (unread_after_send 6 6 (chatDb (demoChat [] 0)) "u1" 0 "hello"
              (demoChat [] 0)) as (chat' & Hchat' & Hown & Hother).
  - reflexivity.
  - vm_compute. reflexivity.
  - exists chat'. split; [exact Hchat'|]. split; [exact Hown|].
    apply (Hother "u2"). discriminate.
Defined.

(** X14. MarkRead clears the reader's count only.  When a participant
    marks a conversation read, the reader's unread count becomes 0, and
    the unread count of any other user [v] is unchanged as long as
    every message was sent by the reader or by [v] (as is the case
    between the two participants of a conversation). *)
Theorem unread_after_markRead db uid chatId chat :
  chats db !! chatId = Some chat →
  (markRead db uid chatId).2 = reply 200 "Messages marked as read" →
  ∃ chat',
    chats (markRead db uid chatId).1 !! chatId = Some chat' ∧
    unread uid chat' = 0 ∧
    ∀ v, v ≠ uid →
      (∀ m, m ∈ Chat.messages chat →
            Message.sender m = uid ∨ Message.sender m = v) →
      unread v chat' = unread v chat.
Proof.
  intros Hchat. pose proof (lookup_lt_Some _ _ _ Hchat) as Hlt.
  unfold markRead, findById. rewrite Hchat.
  destruct (negb (bool_decide _)); [done|]. simpl. unfold save. intros _.
  rewrite list_lookup_insert_eq by done.
  eexists. split; [done|]. unfold unread. simpl.
  split; [by rewrite unread_after_markMessage|].
  intros v Hv Hsenders.
  induction (Chat.messages chat) as [|m ms IH]; [done|].
  rewrite fmap_cons. cbn [List.filter].
  assert (unreadFor v (markMessage uid m) = unreadFor v m) as ->.
  { unfold unreadFor, markMessage.
    destruct (String.eqb_spec (Message.sender m) uid) as [Heq|Hne]; [done|].
    simpl. destruct (Hsenders m) as [?|Hs]; [by left|done|].
    by rewrite Hs, String.eqb_refl. }
  destruct (unreadFor v m); simpl;
    rewrite IH by (intros m' Hm'; apply Hsenders; by right); done.
Qed.

Lemma unread_after_markRead_witness :
  ∃ chat',
    chats (markRead
             (chatDb (demoChat [Message.mk "u1" "hello" 5 false;
                                Message.mk "u2" "hi" 6 false] 6))
             "u2" 0).1 !! 0 = Some chat' ∧
    unread "u2" chat' = 0 ∧ unread "u1" chat' = 1.
Proof.
  destruct (unread_after_markRead
              (chatDb (demoChat [Message.mk "u1" "hello" 5 false;
                                 Message.mk "u2" "hi" 6 false] 6))
              "u2" 0
              (demoChat [Message.mk "u1" "hello" 5 false;
                         Message.mk "u2" "hi" 6 false] 6))
    as (chat' & Hchat' & Hown & Hother).
  - reflexivity.
  - vm_compute. reflexivity.
  - exists chat'. split; [exact Hchat'|]. split; [exact Hown|].
    rewrite (Hother "u1"); [reflexivity|discriminate|].
    intros m [->|Hm]%elem_of_cons; [by right|].
    apply list_elem_of_singleton in Hm as ->. by left.
Defined.
Lemma listed (db : Db) (u : UserId) i chat :
  chats db !! i = Some chat → u ∈ Chat.participants chat →
  ∃ entries,
    (listConversations db u).2 = mkResponse 200 (Conversations entries) ∧
    formatConversation u (i, chat) ∈ entries.
Proof.
  intros Hchat Hin. unfold listConversations, sortByLastMessageDesc.
  eexists. split; [done|]. simpl.
  apply list_elem_of_fmap_2. rewrite merge_sort_Permutation.
  by apply elem_of_find_docs.
Qed.

(** X15. A sent message shows up in the other participant's list.
    When AppendMessage in a conversation is answered 200, the
    conversation list of any other participant [v] then has an entry
    for that conversation whose last message is the one just sent and
    whose unread count is one more than [v]'s unread count before. *)
Theorem sent_message_listed t1 t2 db uid chatId content chat (v : UserId) :
  chats db !! chatId = Some chat →
  v ∈ Chat.participants chat → v ≠ uid →
  code (sendMessage t1 t2 db uid chatId content).2 = 200 →
  ∃ entries e,
    (listConversations (sendMessage t1 t2 db uid chatId content).1 v).2
      = mkResponse 200 (Conversations entries) ∧
    e ∈ entries ∧ Conversation._id e = chatId ∧
    Conversation.lastMessage e
      = Some (Message.mk uid (trim content) t1 false) ∧
    Conversation.unreadCount e = S (unread v chat).
Proof.
  intros Hchat Hv Hne. pose proof (lookup_lt_Some _ _ _ Hchat) as Hlt.
  unfold sendMessage at 1. unfold findById. rewrite Hchat.
  destruct (negb (isLength 1 (Some 1000) (trim content))) eqn:Hlen; [done|].
  destruct (negb (bool_decide (uid ∈ Chat.participants chat))) eqn:Hin;
    [done|].
  intros _.
  assert (chats (sendMessage t1 t2 db uid chatId content).1 !! chatId
          = Some (Chat.mk (Chat.participants chat) (Chat.relatedPost chat)
                    (Chat.messages chat ++
                       [Message.mk uid (trim content) t1 false]) t2)) as Hnew.
  { unfold sendMessage, findById, save. rewrite Hchat, Hlen, Hin. simpl.
    rewrite list_lookup_insert_eq by done. simpl.
    by rewrite list_lookup_insert_eq. }
  destruct (listed _ v _ _ Hnew Hv) as (entries & Hres & He).
  eexists entries, _. split; [done|]. split; [done|].
  split; [done|]. simpl. split; [by rewrite last_snoc|].
  rewrite unread_app. unfold unread. simpl. unfold unreadFor at 2. simpl.
  rewrite (proj2 (String.eqb_neq uid v)) by done. simpl. lia.
Qed.

Lemma sent_message_listed_witness :
  ∃ entries e,
    (listConversations
       (sendMessage 6 7 (chatDb (demoChat [] 0)) "u1" 0 "hello").1 "u2").2
      = mkResponse 200 (Conversations entries) ∧
    e ∈ entries ∧ Conversation.unreadCount e = 1.
Proof.
  destruct (sent_message_listed 6 7 (chatDb (demoChat [] 0)) "u1" 0 "hello"
              (demoChat [] 0) "u2")
    as (entries & e & Hres & He & _ & _ & Hn).
  - reflexivity.
  - apply elem_of_cons. right. apply elem_of_cons. by left.
  - discriminate.
  - vm_compute. reflexivity.
  - by exists entries, e.
Defined.
End ChatInvariants.

(** ** Presence: routing of notifications *)

Section PresenceRouting.
Implicit Types (activeUsers : gmap string string) (socket : Socket.t).

(** X16. How notifications are routed.  A [sendMessage] event for a
    receiver without registry entry emits nothing.  Once a socket with
    a (non-empty) id has registered for a user, an event for that user
    is emitted to that socket, with the sender, the message and the
    server's date, whatever was registered before; and after that
    socket's disconnect an event for the user emits nothing. *)
Theorem notification_routing now activeUsers socket
    (userId message senderId : string) :
  (activeUsers !! userId = None →
   on_sendMessage now activeUsers userId message senderId = None) ∧
  (Socket.id socket ≠ EmptyString →
   on_sendMessage now (on_join activeUsers socket userId).1 userId message
     senderId
   = Some (Socket.id socket, Notification.mk senderId message now)) ∧
  (userId ≠ EmptyString →
   on_sendMessage now
     (on_disconnect (on_join activeUsers socket userId).1
        (on_join activeUsers socket userId).2) userId message senderId
   = None).
Proof.
  unfold on_sendMessage, on_join, on_disconnect. simpl.
  split; [by intros ->|]. split.
  - intros Hid. rewrite lookup_insert_eq. simpl.
    by rewrite (proj2 (String.eqb_neq _ _) Hid).
  - intros Hu. rewrite (proj2 (String.eqb_neq _ _) Hu). simpl.
    by rewrite lookup_delete_eq.
Qed.

Lemma notification_routing_witness :
  on_sendMessage 9 (on_join (<["u" := "s1"]> ∅) (Socket.mk "s2" None) "u").1
    "u" "ping" "v"
  = Some ("s2", Notification.mk "v" "ping" 9).
Proof.
  destruct (notification_routing 9 (<["u" := "s1"]> ∅) (Socket.mk "s2" None)
              "u" "ping" "v") as (_ & Hjoin & _).
  apply Hjoin. discriminate.
Defined.


End PresenceRouting.

(** ** The seed script *)

Section SeedData.
Implicit Types (db : Db) (u c : UserId) (p : Post.t).

Lemma user_mirror_snoc (ps : list Post.t) p u (U : User.t) :
  user_mirror ps u U →
  user_mirror (ps ++ [p]) u
    (User.mk
       (User.tripsCreated U ++
          (if decide (Post.creator p = u) then [length ps] else []))
       (User.tripsJoined U ++
          (if decide (u ∈ Post.participants p ∧ Post.creator p ≠ u)
           then [length ps] else []))).
Proof.
  intros (Hnc & Hnj & Hc & Hj).
  assert (∀ q, ps !! length ps = Some q → False) as Hfresh.
  { intros q Hq%lookup_lt_Some. lia. }
  split; [|split; [|split]]; simpl.
  - case_decide; [|by rewrite app_nil_r].
    apply NoDup_app. split; [done|]. split; [|apply NoDup_singleton].
    intros x Hx ->%list_elem_of_singleton.
    apply Hc in Hx as (q & Hq & _). eauto.
  - case_decide; [|by rewrite app_nil_r].
    apply NoDup_app. split; [done|]. split; [|apply NoDup_singleton].
    intros x Hx ->%list_elem_of_singleton.
    apply Hj in Hx as (q & Hq & _). eauto.
  - intros j. rewrite elem_of_app, Hc. setoid_rewrite lookup_snoc_Some.
    split.
    + intros [(q & Hq & ?)|Hj'].
      * exists q. split; [|done]. left. eauto using lookup_lt_Some.
      * case_decide; [|by apply elem_of_nil in Hj'].
        apply list_elem_of_singleton in Hj' as ->. eauto.
    + intros (q & [[? Hq]|[-> <-]] & Hcr); [by eauto|].
      right. rewrite decide_True by done. by apply list_elem_of_singleton.
  - intros j. rewrite elem_of_app, Hj. setoid_rewrite lookup_snoc_Some.
    split.
    + intros [(q & Hq & ?)|Hj'].
      * exists q. split; [|done]. left. eauto using lookup_lt_Some.
      * case_decide; [|by apply elem_of_nil in Hj'].
        apply list_elem_of_singleton in Hj' as ->. eauto.
    + intros (q & [[? Hq]|[-> <-]] & Hin & Hcr); [by eauto|].
      right. rewrite decide_True by done. by apply list_elem_of_singleton.
Qed.

Lemma fold_joined c (id : nat) (l : list UserId) :
  NoDup l → ∀ db,
  posts
    (fold_left
       (λ d participantId,
          if bool_decide (participantId ≠ c)
          then set_users
                 (findByIdAndUpdate (User.push_tripsJoined id)
                    participantId (users d)) d
          else d) l db) = posts db ∧
  chats
    (fold_left
       (λ d participantId,
          if bool_decide (participantId ≠ c)
          then set_users
                 (findByIdAndUpdate (User.push_tripsJoined id)
                    participantId (users d)) d
          else d) l db) = chats db ∧
  ∀ u,
    users
      (fold_left
         (λ d participantId,
            if bool_decide (participantId ≠ c)
            then set_users
                   (findByIdAndUpdate (User.push_tripsJoined id)
                      participantId (users d)) d
            else d) l db) !! u
    = if decide (u ∈ l ∧ u ≠ c)
      then User.push_tripsJoined id <$> users db !! u
      else users db !! u.
Proof.
  induction 1 as [|x l Hx Hnd IH]; intros db.
  - cbn [fold_left]. split; [done|]. split; [done|]. intros u.
    rewrite decide_False; [done|]. intros [[]%elem_of_nil _].
  - cbn [fold_left]. destruct (IH (if bool_decide (x ≠ c)
                         then set_users
                                (findByIdAndUpdate (User.push_tripsJoined id)
                                   x (users db)) db
                         else db)) as (Hp & Hc & Hu).
    rewrite Hp, Hc. split; [by case_bool_decide|].
    split; [by case_bool_decide|].
    intros u. rewrite Hu. unfold findByIdAndUpdate.
    case_bool_decide as Hxc; simpl.
    + destruct (decide (u = x)) as [->|Hux].
      * rewrite lookup_alter_eq.
        rewrite decide_False by (intros [? _]; done).
        rewrite decide_True; [done|]. split; [by left|done].
      * rewrite lookup_alter_ne by done.
        apply decide_ext. rewrite elem_of_cons. naive_solver.
    + apply decide_ext. rewrite elem_of_cons.
      assert (x = c) by (destruct (decide (x = c)); tauto). naive_solver.
Qed.

Lemma seedPost_consistent db p :
  trips_consistent db →
  Post.validate (castPost p) = true → roster_ok p → capacity_ok p →
  ∃ db', Seed.seedPost db p = Some db' ∧ trips_consistent db' ∧
         posts db' = posts db ++ [castPost p] ∧ chats db' = chats db.
Proof.
  intros (Hrost & Hcap & Hval & Hm) Hv Hr Hc.
  unfold Seed.seedPost. rewrite Hv. simpl.
  destruct Hr as (Hnd & Hr).
  edestruct (fold_joined (Post.creator p) (length (posts db))
               (Post.participants p) Hnd) as (Hp & Hcs & Hu).
  eexists. split; [reflexivity|].
  rewrite Hp, Hcs. simpl. split; [|done].
  split; [|split; [|split]].
  - rewrite Hp. simpl. apply Forall_app. split; [done|].
    by apply Forall_singleton.
  - rewrite Hp. simpl. apply Forall_app. split; [done|].
    by apply Forall_singleton.
  - rewrite Hp. simpl. apply Forall_app. split; [done|].
    by apply Forall_singleton.
  - intros u U' HU'. rewrite Hp. simpl.
    rewrite Hu in HU'. simpl in HU'. unfold findByIdAndUpdate in HU'.
    rewrite lookup_alter in HU'.
    assert (∃ U, users db !! u = Some U ∧
                 U' = User.mk
                        (User.tripsCreated U ++
                           (if decide (Post.creator (castPost p) = u)
                            then [length (posts db)] else []))
                        (User.tripsJoined U ++
                           (if decide (u ∈ Post.participants (castPost p) ∧
                                       Post.creator (castPost p) ≠ u)
                            then [length (posts db)] else [])))
      as (U & HU & ->).
    { simpl. destruct (decide (Post.creator p = u)) as [->|Hne].
      - rewrite decide_False in HU' by (intros [_ ?]; done).
        destruct (users db !! u) as [U|] eqn:HU; [|done].
        exists U. split; [done|]. simpl in HU'. simplify_eq.
        rewrite decide_False by (intros [_ ?]; done).
        unfold User.push_tripsCreated. by rewrite app_nil_r.
      - destruct (users db !! u) as [U|] eqn:HU;
          [|by case_decide].
        exists U. split; [done|].
        destruct (decide (u ∈ Post.participants p ∧ u ≠ Post.creator p))
          as [[Hin Hne']|Hno]; simpl in HU'; injection HU' as <-.
        + rewrite decide_True by done.
          unfold User.push_tripsJoined. simpl. by rewrite app_nil_r.
        + rewrite decide_False by (intros [? ?]; apply Hno; done).
          destruct U. simpl. by rewrite !app_nil_r. }
    apply user_mirror_snoc. by apply Hm.
Qed.

Lemma seedPosts_consistent (l : list Post.t) :
  ∀ db,
  trips_consistent db →
  Forall (λ p, Post.validate (castPost p) = true ∧ roster_ok p ∧
               capacity_ok p) l →
  ∃ db',
    fold_left (λ acc postData, acc ≫= λ d, Seed.seedPost d postData) l
      (Some db) = Some db' ∧
    trips_consistent db' ∧
    posts db' = posts db ++ (castPost <$> l) ∧ chats db' = chats db.
Proof.
  induction l as [|p l IH]; intros db Hdb Hl.
  - exists db. simpl. by rewrite app_nil_r.
  - apply Forall_cons in Hl as [(Hv & Hr & Hc) Hl].
    destruct (seedPost_consistent db p Hdb Hv Hr Hc)
      as (db1 & Hs & Hdb1 & Hp1 & Hc1).
    destruct (IH db1 Hdb1 Hl) as (db' & Hf & Hdb' & Hp' & Hc').
    exists db'. simpl. rewrite Hs. simpl. split; [done|]. split; [done|].
    rewrite Hp', Hp1, Hc', Hc1, <- app_assoc. done.
Qed.

Lemma run_consistent db (rs : list Request) :
  trips_consistent db → trips_consistent (run db rs).
Proof.
  apply (run_invariant trips_consistent).
  intros d r (Hrost & Hcap & Hval & Hm).
  pose proof (handle_trip_step d r) as Hstep.
  split; [by apply handle_roster|]. split; [by apply (step_capacity d)|].
  split; [by apply (step_valid d)|by apply (step_mirror d)].
Qed.

(** X18. The seed script produces a consistent database.  For five
    distinct user ids, whatever the clock shows and whatever was stored
    before, the script runs through: it stores the five demo trips, all
    of which pass the schema, and leaves the conversations as they
    were.  In the seeded database, and in every state the server
    reaches from it, each trip has as many participants as its counter
    says and no more than its capacity, its creator among them and a
    status that follows the capacity, and the users' trip lists mirror
    the rosters. *)
Theorem seed_is_consistent (now : nat → Date) (u0 u1 u2 u3 u4 : UserId) db :
  NoDup [u0; u1; u2; u3; u4] →
  ∃ db',
    Seed.seedData now u0 u1 u2 u3 u4 db = Some db' ∧
    posts db' = castPost <$> Seed.postsData now u0 u1 u2 u3 u4 ∧
    chats db' = chats db ∧
    ∀ rs : list Request, trips_consistent (run db' rs).
Proof.
  intros Hnd.
  assert (u1 ≠ u2 ∧ u3 ≠ u4 ∧ u4 ≠ u0) as (H12 & H34 & H40).
  { apply NoDup_cons in Hnd as [H0 Hnd]. apply NoDup_cons in Hnd as [H1 Hnd].
    apply NoDup_cons in Hnd as [H2 Hnd]. apply NoDup_cons in Hnd as [H3 _].
    set_solver. }
  unfold Seed.seedData.
  edestruct (seedPosts_consistent (Seed.postsData now u0 u1 u2 u3 u4))
    as (db' & Hf & Hdb' & Hp & Hc); last first.
  - exists db'. split; [exact Hf|]. split; [by rewrite Hp|].
    split; [by rewrite Hc|]. intros rs. by apply run_consistent.
  - unfold Seed.postsData.
    repeat apply Forall_cons_2; [..|apply Forall_nil_2].
    all: split; [vm_compute; reflexivity|].
    all: split;
      [repeat split; simpl; try lia; try set_solver;
       repeat (apply NoDup_cons_2; [set_solver|]); apply NoDup_nil_2
      |by left; split; [done|simpl; lia]].
  - split; [constructor|]. split; [constructor|]. split; [constructor|].
    intros u U HU. simpl in HU.
    assert (U = User.mk [] []) as ->.
    { repeat (apply lookup_insert_Some in HU as [[_ <-]|[_ HU]]; [done|]).
      by rewrite lookup_empty in HU. }
    simpl. split; [constructor|]. split; [constructor|].
    split; intros id; (split; [by intros ?%elem_of_nil|]);
      by intros (post & Hpost & _).
Qed.

Lemma seed_is_consistent_witness :
  ∃ db',
    Seed.seedData (λ k, Z.of_nat k) "a" "b" "c" "d" "e" (initial ∅) = Some db' ∧
    trips_consistent (run db' [Join "a" 1; Leave "c" 1]).
Proof.
  destruct (seed_is_consistent (λ k, Z.of_nat k) "a" "b" "c" "d" "e"
              (initial ∅)) as (db' & Hseed & _ & _ & Hrun).
  - repeat (apply NoDup_cons_2;
            [intros Hin; repeat (apply elem_of_cons in Hin as [Hin|Hin];
                                 [discriminate Hin|]);
             by apply elem_of_nil in Hin|]).
    apply NoDup_nil_2.
  - exists db'. split; [exact Hseed|apply Hrun].
Defined.
End SeedData.
